(** * The launcher's application shell (src/renderer/app.tsx)

    A shallow embedding of the [App] component: the two-stage collection
    load started by the constructor, the join into the central state, the
    preference setters with their write-through to the preferences store,
    the log subscription of the mount life cycle and the one-shot search
    flag consumed by [render].

    The component is stateful and driven by callbacks.  It is embedded as
    functions in a small state-and-exception monad over a [World] (the
    component's fields, the objects it shares with its environment and a
    chronological log of the calls it makes), and the environment is a
    list of [Event]s: promise settlements, life cycle calls of the UI
    framework, user interface callbacks and messages of the log channel. *)

From Stdlib Require Import String Ascii List Bool Arith Lia PrimFloat.
From stdpp Require Import base gmap strings list.
Import ListNotations.
Open Scope string_scope.

(** ** Declarations imported by app.tsx

    [app.tsx] imports types and constants whose declarations live in
    other modules.  The code only stores and forwards values of these
    types, so they are abstracted as the fields of one class. *)

Class Collaborators := {
  (** [IGame] of shared/game/interfaces *)
  IGame : Type;
  (** [ISearchOnSearchEvent] of components/Search *)
  ISearchOnSearchEvent : Type;
  (** [IGameOrderChangeEvent] of components/GameOrder *)
  IGameOrderChangeEvent : Type;
  (** [BrowsePageLayout] of shared/BrowsePageLayout *)
  BrowsePageLayout : Type;
  (** the reason a promise is rejected with (typed [any] in the code) *)
  JsError : Type;
  (** [Paths.browse] *)
  Paths_browse : string;
  (** [AppConstants.appTitle] and [AppConstants.appVersionString] *)
  appTitle : string;
  appVersionString : string;
}.

(** A JavaScript [number] is an IEEE 754 binary64 value. *)
Definition number : Type := float.

(** ** [String.prototype.split] with a one-character separator *)

(** [split_go sep s acc] scans [s]; [acc] is the segment read so far. *)
Fixpoint split_go (sep : ascii) (s : string) (acc : string) : list string :=
  match s with
  | EmptyString => [acc]
  | String c rest =>
      if Ascii.eqb c sep
      then acc :: split_go sep rest EmptyString
      else split_go sep rest (acc ++ String c EmptyString)
  end.

Definition split (sep : ascii) (s : string) : list string :=
  split_go sep s EmptyString.

(** [platform.split('.')[0]].  [split] never returns an empty array (see
    [split_go_nonempty]), so the index 0 is always in range. *)
Definition platform_of_filename (platform : string) : string :=
  match split "."%char platform with
  | x :: _ => x
  | [] => EmptyString
  end.

(** Whether [s] contains the character ['.']. *)
Fixpoint has_dot (s : string) : bool :=
  match s with
  | EmptyString => false
  | String c rest => Ascii.eqb c "."%char || has_dot rest
  end.

Section App.

Context `{Collaborators}.

(** ** Data model *)

(** [IGameCollection] of shared/game/interfaces. *)
Record IGameCollection := { games : list IGame }.

(** The fields of [IAppConfigData] that the component reads. *)
Record IAppConfigData := {
  config_flashpointPath : string;
  config_useCustomTitlebar : bool;
}.

(** The fields of [window.External.preferences.data] that the component
    reads and writes. *)
Record IAppPreferencesData := {
  browsePageGameScale : number;
  browsePageLayout : BrowsePageLayout;
  browsePageShowExtreme : bool;
}.

(** Objects are shared by reference: a [loc] names an object of the
    heap. *)
Definition loc := nat.

(** Modelled from the spec: the class [GameImageCollection]
    (image/GameImageCollection) is not part of the sources at hand.  The
    image index is "created once; platforms registered incrementally;
    never replaced, only grown", and re-adding a known platform "is a
    no-op, not a duplicate entry": the registered platforms form a set. *)
Record GameImageCollection := {
  images_flashpointPath : string;
  images_platforms : gset string;
}.

(** Modelled from the spec: [new GameImageCollection(flashpointPath)],
    an index with no platform registered yet. *)
Definition GameImageCollection_new (flashpointPath : string) : GameImageCollection :=
  {| images_flashpointPath := flashpointPath; images_platforms := ∅ |}.

(** Modelled from the spec: [GameImageCollection.addPlatforms(names)]
    registers every name; a name already known stays a single entry. *)
Definition GameImageCollection_addPlatforms (names : list string)
    (g : GameImageCollection) : GameImageCollection :=
  {| images_flashpointPath := images_flashpointPath g;
     images_platforms := images_platforms g ∪ list_to_set names |}.

(** [ICentralState] of renderer/interfaces.  [central_gameImages] is a
    reference to the image collection, not a copy of it. *)
Record ICentralState := {
  central_collection : IGameCollection;
  central_flashpointPath : string;
  central_gameImages : loc;
}.

Record IAppState := {
  central : option ICentralState;
  search : option ISearchOnSearchEvent;
  order : option IGameOrderChangeEvent;
  logData : string;
  config : IAppConfigData;
  gameScale : number;
  gameLayout : BrowsePageLayout;
  showExtreme : bool;
  useCustomTitlebar : bool;
}.

(** The argument of a [this.setState({...})] call.  Every call of the
    component sets exactly one key. *)
Inductive StateUpdate :=
| UpdCentral (c : ICentralState)
| UpdSearch (e : ISearchOnSearchEvent)
| UpdOrder (e : IGameOrderChangeEvent)
| UpdLogData (fullLog : string)
| UpdGameScale (value : number)
| UpdGameLayout (value : BrowsePageLayout)
| UpdShowExtreme (isChecked : bool).

(** [setState] merges the given key into the state and leaves the other
    keys as they are. *)
Definition apply_update (u : StateUpdate) (s : IAppState) : IAppState :=
  match u with
  | UpdCentral c =>
      {| central := Some c; search := search s; order := order s;
         logData := logData s; config := config s; gameScale := gameScale s;
         gameLayout := gameLayout s; showExtreme := showExtreme s;
         useCustomTitlebar := useCustomTitlebar s |}
  | UpdSearch e =>
      {| central := central s; search := Some e; order := order s;
         logData := logData s; config := config s; gameScale := gameScale s;
         gameLayout := gameLayout s; showExtreme := showExtreme s;
         useCustomTitlebar := useCustomTitlebar s |}
  | UpdOrder e =>
      {| central := central s; search := search s; order := Some e;
         logData := logData s; config := config s; gameScale := gameScale s;
         gameLayout := gameLayout s; showExtreme := showExtreme s;
         useCustomTitlebar := useCustomTitlebar s |}
  | UpdLogData fullLog =>
      {| central := central s; search := search s; order := order s;
         logData := fullLog; config := config s; gameScale := gameScale s;
         gameLayout := gameLayout s; showExtreme := showExtreme s;
         useCustomTitlebar := useCustomTitlebar s |}
  | UpdGameScale value =>
      {| central := central s; search := search s; order := order s;
         logData := logData s; config := config s; gameScale := value;
         gameLayout := gameLayout s; showExtreme := showExtreme s;
         useCustomTitlebar := useCustomTitlebar s |}
  | UpdGameLayout value =>
      {| central := central s; search := search s; order := order s;
         logData := logData s; config := config s; gameScale := gameScale s;
         gameLayout := value; showExtreme := showExtreme s;
         useCustomTitlebar := useCustomTitlebar s |}
  | UpdShowExtreme isChecked =>
      {| central := central s; search := search s; order := order s;
         logData := logData s; config := config s; gameScale := gameScale s;
         gameLayout := gameLayout s; showExtreme := isChecked;
         useCustomTitlebar := useCustomTitlebar s |}
  end.

(** An assignment to a field of [window.External.preferences.data]. *)
Inductive PreferenceWrite :=
| WriteGameScale (value : number)
| WriteLayout (value : BrowsePageLayout)
| WriteShowExtreme (isChecked : bool).

Definition apply_write (p : PreferenceWrite) (d : IAppPreferencesData)
    : IAppPreferencesData :=
  match p with
  | WriteGameScale value =>
      {| browsePageGameScale := value; browsePageLayout := browsePageLayout d;
         browsePageShowExtreme := browsePageShowExtreme d |}
  | WriteLayout value =>
      {| browsePageGameScale := browsePageGameScale d; browsePageLayout := value;
         browsePageShowExtreme := browsePageShowExtreme d |}
  | WriteShowExtreme isChecked =>
      {| browsePageGameScale := browsePageGameScale d;
         browsePageLayout := browsePageLayout d;
         browsePageShowExtreme := isChecked |}
  end.

(** *** What [render] returns *)

(** [<Redirect to={...} push={...} />] *)
Record Redirect := { redirect_to : string; redirect_push : bool }.

(** The props handed to [AppRouter]. *)
Record RouterProps := {
  props_central : option ICentralState;
  props_search : option ISearchOnSearchEvent;
  props_order : option IGameOrderChangeEvent;
  props_logData : string;
  props_config : IAppConfigData;
  props_gameScale : number;
  props_gameLayout : BrowsePageLayout;
  props_showExtreme : bool;
}.

(** The element tree of [render], reduced to the values the component
    computes for it. *)
Record View := {
  view_redirect : option Redirect;
  view_titleBar : option string;
  view_extremeToggle : bool;
  view_routerProps : RouterProps;
  view_gameCount : option nat;
  view_scaleSliderValue : number;
  view_layout : BrowsePageLayout;
}.

(** *** The component in its environment *)

(** The functions registered on the channel ['log-data-update'].  The
    component registers [this.onLogDataUpdate], bound once in the
    constructor, so [on] and [removeListener] receive the same function. *)
Inductive Listener := onLogDataUpdate_bound.

(** The fetch of [LaunchboxData] that is in flight, with the constants of
    the constructor that its callbacks close over. *)
Inductive Pending :=
| FetchingPlatformFilenames (config : IAppConfigData) (gameImages : loc)
| FetchingPlatforms (gameImages : loc)
| NoFetch.

(** Where the UI framework is in the component's life cycle. *)
Inductive Lifecycle := Constructed | Mounted | Unmounted.

(** The calls the component makes, as they are logged. *)
Inductive Effect :=
| EffSetState (u : StateUpdate)
| EffPreferenceWrite (p : PreferenceWrite)
| EffConsoleError (e : JsError)
| EffFetchPlatformFilenames (flashpointPath : string)
| EffAddPlatforms (platforms : list string)
| EffFetchPlatforms (flashpointPath : string) (platformFilenames : list string)
| EffOnDataLoaded (collection : option IGameCollection)
| EffIpcOn (l : Listener)
| EffIpcRemoveListener (l : Listener)
| EffResendLogDataUpdate
| EffRender (v : View).

Record World := {
  (** [this.state] *)
  state : IAppState;
  (** [this._onSearch] *)
  _onSearch : bool;
  (** [window.External.preferences.data], the persisted store *)
  preferences : IAppPreferencesData;
  (** the objects shared by reference *)
  heap : gmap loc GameImageCollection;
  (** [ipcRenderer]'s listeners of ['log-data-update'], oldest first *)
  listeners : list Listener;
  (** the main process: its full log and the replays it still owes *)
  mainLog : string;
  resendRequests : nat;
  pending : Pending;
  lifecycle : Lifecycle;
  (** the calls made so far, oldest first *)
  effects : list Effect;
}.

(** *** Field updates of [World] *)

Definition set_state (x : IAppState) (w : World) : World :=
  {| state := x; _onSearch := _onSearch w; preferences := preferences w;
     heap := heap w; listeners := listeners w; mainLog := mainLog w;
     resendRequests := resendRequests w; pending := pending w;
     lifecycle := lifecycle w; effects := effects w |}.

Definition set_onSearch (x : bool) (w : World) : World :=
  {| state := state w; _onSearch := x; preferences := preferences w;
     heap := heap w; listeners := listeners w; mainLog := mainLog w;
     resendRequests := resendRequests w; pending := pending w;
     lifecycle := lifecycle w; effects := effects w |}.

Definition set_preferences (x : IAppPreferencesData) (w : World) : World :=
  {| state := state w; _onSearch := _onSearch w; preferences := x;
     heap := heap w; listeners := listeners w; mainLog := mainLog w;
     resendRequests := resendRequests w; pending := pending w;
     lifecycle := lifecycle w; effects := effects w |}.

Definition set_heap (x : gmap loc GameImageCollection) (w : World) : World :=
  {| state := state w; _onSearch := _onSearch w;
     preferences := preferences w; heap := x; listeners := listeners w;
     mainLog := mainLog w; resendRequests := resendRequests w;
     pending := pending w; lifecycle := lifecycle w; effects := effects w |}.

Definition set_listeners (x : list Listener) (w : World) : World :=
  {| state := state w; _onSearch := _onSearch w;
     preferences := preferences w; heap := heap w; listeners := x;
     mainLog := mainLog w; resendRequests := resendRequests w;
     pending := pending w; lifecycle := lifecycle w; effects := effects w |}.

Definition set_mainLog (x : string) (w : World) : World :=
  {| state := state w; _onSearch := _onSearch w;
     preferences := preferences w; heap := heap w; listeners := listeners w;
     mainLog := x; resendRequests := resendRequests w; pending := pending w;
     lifecycle := lifecycle w; effects := effects w |}.

Definition set_resendRequests (x : nat) (w : World) : World :=
  {| state := state w; _onSearch := _onSearch w;
     preferences := preferences w; heap := heap w; listeners := listeners w;
     mainLog := mainLog w; resendRequests := x; pending := pending w;
     lifecycle := lifecycle w; effects := effects w |}.

Definition set_pending (x : Pending) (w : World) : World :=
  {| state := state w; _onSearch := _onSearch w;
     preferences := preferences w; heap := heap w; listeners := listeners w;
     mainLog := mainLog w; resendRequests := resendRequests w; pending := x;
     lifecycle := lifecycle w; effects := effects w |}.

Definition set_lifecycle (x : Lifecycle) (w : World) : World :=
  {| state := state w; _onSearch := _onSearch w;
     preferences := preferences w; heap := heap w; listeners := listeners w;
     mainLog := mainLog w; resendRequests := resendRequests w;
     pending := pending w; lifecycle := x; effects := effects w |}.

Definition set_effects (x : list Effect) (w : World) : World :=
  {| state := state w; _onSearch := _onSearch w;
     preferences := preferences w; heap := heap w; listeners := listeners w;
     mainLog := mainLog w; resendRequests := resendRequests w;
     pending := pending w; lifecycle := lifecycle w; effects := x |}.

(** ** The monad of the component's code

    A computation reads and changes the world and either returns or
    throws.  A promise that has settled is such a computation too
    ([settled]), and [.then] and [.catch] are the monad's bind and
    handler: [p.then(f).catch(h)] runs [h] when [p] was rejected and also
    when [f] throws. *)

Definition Js (A : Type) : Type := World -> (JsError + A) * World.

Definition ret {A} (a : A) : Js A := fun w => (inr a, w).

Definition throw {A} (e : JsError) : Js A := fun w => (inl e, w).

Definition bind {A B} (m : Js A) (k : A -> Js B) : Js B :=
  fun w =>
    match m w with
    | (inr a, w') => k a w'
    | (inl e, w') => (inl e, w')
    end.

Definition try_catch {A} (m : Js A) (h : JsError -> Js A) : Js A :=
  fun w =>
    match m w with
    | (inr a, w') => (inr a, w')
    | (inl e, w') => h e w'
    end.

Definition gets {A} (f : World -> A) : Js A := fun w => (inr (f w), w).

Definition modify (f : World -> World) : Js unit := fun w => (inr tt, f w).

(** The world a handler leaves behind; an exception that nothing caught
    is dropped by the event loop. *)
Definition exec {A} (m : Js A) (w : World) : World := snd (m w).

Notation "'let*' x ':=' c 'in' k" := (bind c (fun x => k))
  (at level 10, x name, c at level 100, k at level 200).
Notation "c1 *> c2" := (bind c1 (fun _ => c2))
  (at level 100, c2 at level 200, right associativity).

Definition settled {A} (r : JsError + A) : Js A :=
  match r with
  | inl e => throw e
  | inr a => ret a
  end.

Definition promise_then {A B} (p : Js A) (f : A -> Js B) : Js B := bind p f.

Definition promise_catch {A} (p : Js A) (h : JsError -> Js A) : Js A :=
  try_catch p h.

(** *** The calls the component makes *)

Definition log (e : Effect) : Js unit :=
  modify (fun w => set_effects (effects w ++ [e]) w).

(** [this.setState(u)].  The component reads [this.state] inside a
    handler only for [config], which no handler writes, so the moment at
    which the framework merges the update cannot be observed by this
    code: the merge is done at the call.

    The framework merges an update only into a component that is not
    unmounted and ignores [setState] on an unmounted one.  The calls are
    logged in every case, and [state] is what the calls describe: it is
    [this.state] as long as no call was made after an unmount.  The only
    call that can come that late is the one of [onDataLoaded] (the other
    callers are the mounted children and the listener the unmount
    removes), so what is said of [central] in the state after a settlement
    is said of runs with [alive_at_settlement], and what holds in every
    run is said of the central state handed to [setState]. *)
Definition setState (u : StateUpdate) : Js unit :=
  log (EffSetState u) *>
  modify (fun w => set_state (apply_update u (state w)) w).

(** [window.External.preferences.data.<field> = value] *)
Definition preferences_write (p : PreferenceWrite) : Js unit :=
  log (EffPreferenceWrite p) *>
  modify (fun w => set_preferences (apply_write p (preferences w)) w).

(** [console.error(error)] *)
Definition console_error (error : JsError) : Js unit :=
  log (EffConsoleError error).

(** [gameImages.addPlatforms(platforms)] on the object [gameImages]
    refers to. *)
Definition addPlatforms (gameImages : loc) (platforms : list string) : Js unit :=
  log (EffAddPlatforms platforms) *>
  modify (fun w =>
    set_heap (alter (GameImageCollection_addPlatforms platforms) gameImages (heap w)) w).

(** [LaunchboxData.fetchPlatforms(flashpointPath, platformFilenames)]
    with the [.then(...).catch(...)] registered on the promise it
    returns: the fetch is in flight until the environment settles it. *)
Definition fetchPlatforms (flashpointPath : string)
    (platformFilenames : list string) (gameImages : loc) : Js unit :=
  log (EffFetchPlatforms flashpointPath platformFilenames) *>
  modify (set_pending (FetchingPlatforms gameImages)).

(** [ipcRenderer.on('log-data-update', l)]: the listener is added at the
    end of the listener array. *)
Definition ipcRenderer_on (l : Listener) : Js unit :=
  log (EffIpcOn l) *>
  modify (fun w => set_listeners (listeners w ++ [l]) w).

Definition Listener_eqb (a b : Listener) : bool :=
  match a, b with
  | onLogDataUpdate_bound, onLogDataUpdate_bound => true
  end.

Fixpoint remove_first (l : Listener) (ls : list Listener) : list Listener :=
  match ls with
  | [] => []
  | x :: rest => if Listener_eqb x l then rest else x :: remove_first l rest
  end.

(** [ipcRenderer.removeListener('log-data-update', l)] removes at most
    one instance of [l], the one added last. *)
Definition ipcRenderer_removeListener (l : Listener) : Js unit :=
  log (EffIpcRemoveListener l) *>
  modify (fun w => set_listeners (rev (remove_first l (rev (listeners w)))) w).

(** Modelled from the spec: [window.External.resendLogDataUpdate()] is
    declared outside the sources at hand.  It is [requestReplay]: it asks
    the main process for "a forced re-delivery of the current full log
    snapshot"; the main process owes one delivery per request. *)
Definition resendLogDataUpdate : Js unit :=
  log EffResendLogDataUpdate *>
  modify (fun w => set_resendRequests (S (resendRequests w)) w).

(** ** The methods of [App] *)

(** The constructor.  [config] is what [window.External.getConfigSync()]
    returns, [prefs] the content of [window.External.preferences.data]
    and [log0] the log the main process holds at that moment.  The image
    collection is allocated at location 0 and the first fetch is started;
    its callbacks run when the environment settles it. *)
Definition App_constructor (config : IAppConfigData)
    (prefs : IAppPreferencesData) (log0 : string) : World :=
  let gameImages : loc := 0 in
  {| state :=
       {| central := None;
          search := None;
          order := None;
          logData := "";
          config := config;
          gameScale := browsePageGameScale prefs;
          gameLayout := browsePageLayout prefs;
          showExtreme := browsePageShowExtreme prefs;
          useCustomTitlebar := config_useCustomTitlebar config |};
     _onSearch := false;
     preferences := prefs;
     heap := {[ gameImages := GameImageCollection_new (config_flashpointPath config) ]};
     listeners := [];
     mainLog := log0;
     resendRequests := 0;
     pending := FetchingPlatformFilenames config gameImages;
     lifecycle := Constructed;
     effects := [EffFetchPlatformFilenames (config_flashpointPath config)] |}.

(** [onDataLoaded(gameImages, collection?)] *)
Definition onDataLoaded (gameImages : loc) (collection : option IGameCollection)
    : Js unit :=
  log (EffOnDataLoaded collection) *>
  let* s := gets state in
  setState (UpdCentral
    {| central_collection :=
         match collection with
         | Some c => c
         | None => {| games := [] |}
         end;
       central_flashpointPath := config_flashpointPath (config s);
       central_gameImages := gameImages |}).

(** The [.then(...).catch(...)] of the constructor on the promise of
    [fetchPlatformFilenames], run when that promise settles with [r]. *)
Definition onPlatformFilenamesSettled (config : IAppConfigData)
    (gameImages : loc) (r : JsError + list string) : Js unit :=
  promise_catch
    (promise_then (settled r) (fun platformFilenames =>
       let platforms := List.map platform_of_filename platformFilenames in
       addPlatforms gameImages platforms *>
       fetchPlatforms (config_flashpointPath config) platformFilenames gameImages))
    (fun error =>
       console_error error *>
       onDataLoaded gameImages None).

(** The inner [.then(...).catch(...)], on the promise of
    [fetchPlatforms]. *)
Definition onPlatformsSettled (gameImages : loc)
    (r : JsError + IGameCollection) : Js unit :=
  promise_catch
    (promise_then (settled r) (fun collection =>
       onDataLoaded gameImages (Some collection)))
    (fun error =>
       console_error error *>
       onDataLoaded gameImages None).

Definition componentDidMount : Js unit :=
  ipcRenderer_on onLogDataUpdate_bound *>
  resendLogDataUpdate.

Definition componentWillUnmount : Js unit :=
  ipcRenderer_removeListener onLogDataUpdate_bound.

(** [onLogDataUpdate(event, fullLog)]; the code does not use [event]. *)
Definition onLogDataUpdate (fullLog : string) : Js unit :=
  setState (UpdLogData fullLog).

(** The element tree [render] returns, given the redirect element it
    has decided on. *)
Definition view_of (redirect : option Redirect) (s : IAppState) : View :=
  let gameCount :=
    match central s with
    | Some c => Some (length (games (central_collection c)))
    | None => None
    end in
  {| view_redirect := redirect;
     view_titleBar :=
       if useCustomTitlebar s
       then Some (appTitle ++ " (" ++ appVersionString ++ ")")
       else None;
     view_extremeToggle := showExtreme s;
     view_routerProps :=
       {| props_central := central s;
          props_search := search s;
          props_order := order s;
          props_logData := logData s;
          props_config := config s;
          props_gameScale := gameScale s;
          props_gameLayout := gameLayout s;
          props_showExtreme := showExtreme s |};
     view_gameCount := gameCount;
     view_scaleSliderValue := gameScale s;
     view_layout := gameLayout s |}.

Definition render : Js View :=
  let* armed := gets _onSearch in
  let* redirect :=
    (if armed
     then modify (set_onSearch false) *>
          ret (Some {| redirect_to := Paths_browse; redirect_push := true |})
     else ret None) in
  let* s := gets state in
  ret (view_of redirect s).

Definition onSearch (event : ISearchOnSearchEvent) : Js unit :=
  modify (set_onSearch true) *>
  setState (UpdSearch event).

Definition onOrderChange (event : IGameOrderChangeEvent) : Js unit :=
  setState (UpdOrder event).

Definition onScaleSliderChange (value : number) : Js unit :=
  setState (UpdGameScale value) *>
  preferences_write (WriteGameScale value).

Definition onLayoutSelectorChange (value : BrowsePageLayout) : Js unit :=
  setState (UpdGameLayout value) *>
  preferences_write (WriteLayout value).

Definition onExtremeChange (isChecked : bool) : Js unit :=
  setState (UpdShowExtreme isChecked) *>
  preferences_write (WriteShowExtreme isChecked).

(** ** The environment *)

(** The channel ['log-data-update'] delivers [fullLog]: every registered
    listener is called with it, in the order of registration. *)
Definition call_listener (l : Listener) (fullLog : string) : Js unit :=
  match l with
  | onLogDataUpdate_bound => onLogDataUpdate fullLog
  end.

Fixpoint call_listeners (ls : list Listener) (fullLog : string) : Js unit :=
  match ls with
  | [] => ret tt
  | l :: rest => call_listener l fullLog *> call_listeners rest fullLog
  end.

Definition ipc_emit (fullLog : string) : Js unit :=
  let* ls := gets listeners in
  call_listeners ls fullLog.

Inductive Event :=
(** the promise of [fetchPlatformFilenames] resolves or is rejected *)
| EvPlatformFilenamesSettled (r : JsError + list string)
(** the promise of [fetchPlatforms] resolves or is rejected *)
| EvPlatformsSettled (r : JsError + IGameCollection)
(** the framework mounts, unmounts, renders the component *)
| EvMount
| EvUnmount
| EvRender
(** the callbacks handed to [Header] and [Footer] *)
| EvSearch (event : ISearchOnSearchEvent)
| EvOrderChange (event : IGameOrderChangeEvent)
| EvScaleSliderChange (value : number)
| EvLayoutSelectorChange (value : BrowsePageLayout)
| EvExtremeChange (isChecked : bool)
(** Modelled from the spec: the main process is not part of the sources
    at hand.  The channel "delivers full log snapshots (not incremental
    deltas)": [EvLogPush fullLog] is the main process pushing the
    snapshot [fullLog] of its log, and [EvReplay] is the main process
    answering one request of a replay with its current snapshot. *)
| EvLogPush (fullLog : string)
| EvReplay.

(** One turn of the event loop.  [None]: the event cannot happen in this
    world (a promise settles once, and only while its fetch is in flight;
    the framework mounts a constructed component once, unmounts a mounted
    one and renders none that is unmounted; a replay answers a request).
    A push makes [fullLog] the log of the main process and delivers it; a
    replay delivers the log the main process holds. *)
Definition step (e : Event) (w : World) : option World :=
  match e with
  | EvPlatformFilenamesSettled r =>
      match pending w with
      | FetchingPlatformFilenames config gameImages =>
          Some (exec (onPlatformFilenamesSettled config gameImages r)
                     (set_pending NoFetch w))
      | _ => None
      end
  | EvPlatformsSettled r =>
      match pending w with
      | FetchingPlatforms gameImages =>
          Some (exec (onPlatformsSettled gameImages r) (set_pending NoFetch w))
      | _ => None
      end
  | EvMount =>
      match lifecycle w with
      | Constructed => Some (exec componentDidMount (set_lifecycle Mounted w))
      | _ => None
      end
  | EvUnmount =>
      match lifecycle w with
      | Mounted => Some (exec componentWillUnmount (set_lifecycle Unmounted w))
      | _ => None
      end
  | EvRender =>
      match lifecycle w with
      | Unmounted => None
      | _ => Some (exec (let* v := render in log (EffRender v)) w)
      end
  | EvSearch event => Some (exec (onSearch event) w)
  | EvOrderChange event => Some (exec (onOrderChange event) w)
  | EvScaleSliderChange value => Some (exec (onScaleSliderChange value) w)
  | EvLayoutSelectorChange value => Some (exec (onLayoutSelectorChange value) w)
  | EvExtremeChange isChecked => Some (exec (onExtremeChange isChecked) w)
  | EvLogPush fullLog =>
      Some (exec (ipc_emit fullLog) (set_mainLog fullLog w))
  | EvReplay =>
      match resendRequests w with
      | S n => Some (exec (ipc_emit (mainLog w)) (set_resendRequests n w))
      | O => None
      end
  end.

Fixpoint run (w : World) (evs : list Event) : option World :=
  match evs with
  | [] => Some w
  | e :: rest =>
      match step e w with
      | Some w' => run w' rest
      | None => None
      end
  end.

(** Modelled from the spec: [LaunchboxData.fetchPlatforms] is not part
    of the sources at hand.  Stage 2 is to "fetch and parse each [name]
    into game records, merged into one collection, in the order the names
    were resolved", with "no partial-success semantics": the first source
    that fails to parse rejects the whole fetch.  [parse] stands for the
    reading and parsing of one platform source. *)
Fixpoint parse_platforms (parse : string -> JsError + list IGame)
    (platformFilenames : list string) : JsError + list IGame :=
  match platformFilenames with
  | [] => inr []
  | name :: rest =>
      match parse name with
      | inl e => inl e
      | inr parsed =>
          match parse_platforms parse rest with
          | inl e => inl e
          | inr more => inr (parsed ++ more)%list
          end
      end
  end.

Definition LaunchboxData_fetchPlatforms (parse : string -> JsError + list IGame)
    (platformFilenames : list string) : JsError + IGameCollection :=
  match parse_platforms parse platformFilenames with
  | inl e => inl e
  | inr all => inr {| games := all |}
  end.

(** ** Observations on runs *)

(** How stage 1 and stage 2 settle in a list of events, if they do. *)
Fixpoint stage1_of (evs : list Event) : option (JsError + list string) :=
  match evs with
  | [] => None
  | EvPlatformFilenamesSettled r :: _ => Some r
  | _ :: rest => stage1_of rest
  end.

Fixpoint stage2_of (evs : list Event) : option (JsError + IGameCollection) :=
  match evs with
  | [] => None
  | EvPlatformsSettled r :: _ => Some r
  | _ :: rest => stage2_of rest
  end.

Definition is_settlement (e : Event) : bool :=
  match e with
  | EvPlatformFilenamesSettled _ | EvPlatformsSettled _ => true
  | _ => false
  end.

(** The events after which the load chain has settled: stage 1 is
    rejected, or stage 2 resolves or is rejected. *)
Definition settles_load (e : Event) : bool :=
  match e with
  | EvPlatformFilenamesSettled (inl _) | EvPlatformsSettled _ => true
  | _ => false
  end.

(** The calls of the load chain. *)
Definition is_load_effect (e : Effect) : bool :=
  match e with
  | EffFetchPlatformFilenames _ | EffAddPlatforms _ | EffFetchPlatforms _ _
  | EffConsoleError _ | EffOnDataLoaded _ | EffSetState (UpdCentral _) => true
  | _ => false
  end.

Definition is_onDataLoaded (e : Effect) : bool :=
  match e with
  | EffOnDataLoaded _ => true
  | _ => false
  end.

Definition is_fetchPlatforms (e : Effect) : bool :=
  match e with
  | EffFetchPlatforms _ _ => true
  | _ => false
  end.

Definition is_addPlatforms (e : Effect) : bool :=
  match e with
  | EffAddPlatforms _ => true
  | _ => false
  end.

(** The part of the world the load chain reads and writes. *)
Definition load_view (w : World)
    : Pending * option ICentralState * IAppConfigData
      * gmap loc GameImageCollection * list Effect :=
  (pending w, central (state w), config (state w), heap w,
   List.filter is_load_effect (effects w)).

(** What the load chain has done, as a function of the settlements seen
    so far.  The runs of the component are compared with it in
    [load_view_run]. *)
Definition load_chain (config : IAppConfigData)
    (s1 : option (JsError + list string))
    (s2 : option (JsError + IGameCollection))
    : Pending * option ICentralState * IAppConfigData
      * gmap loc GameImageCollection * list Effect :=
  let path := config_flashpointPath config in
  let fresh := GameImageCollection_new path in
  let fallback :=
    {| central_collection := {| games := [] |};
       central_flashpointPath := path;
       central_gameImages := 0 |} in
  match s1 with
  | None =>
      (FetchingPlatformFilenames config 0, None, config, {[ 0 := fresh ]},
       [EffFetchPlatformFilenames path])
  | Some (inl e) =>
      (NoFetch, Some fallback, config, {[ 0 := fresh ]},
       [EffFetchPlatformFilenames path; EffConsoleError e;
        EffOnDataLoaded None; EffSetState (UpdCentral fallback)])
  | Some (inr platformFilenames) =>
      let platforms := List.map platform_of_filename platformFilenames in
      let index := {[ 0 := GameImageCollection_addPlatforms platforms fresh ]} in
      match s2 with
      | None =>
          (FetchingPlatforms 0, None, config, index,
           [EffFetchPlatformFilenames path; EffAddPlatforms platforms;
            EffFetchPlatforms path platformFilenames])
      | Some (inl e) =>
          (NoFetch, Some fallback, config, index,
           [EffFetchPlatformFilenames path; EffAddPlatforms platforms;
            EffFetchPlatforms path platformFilenames; EffConsoleError e;
            EffOnDataLoaded None; EffSetState (UpdCentral fallback)])
      | Some (inr collection) =>
          let joined :=
            {| central_collection := collection;
               central_flashpointPath := path;
               central_gameImages := 0 |} in
          (NoFetch, Some joined, config, index,
           [EffFetchPlatformFilenames path; EffAddPlatforms platforms;
            EffFetchPlatforms path platformFilenames;
            EffOnDataLoaded (Some collection); EffSetState (UpdCentral joined)])
      end
  end.

(** Stage 2 settles only after stage 1 has resolved. *)
Definition stage2_after_stage1 (evs : list Event) : Prop :=
  match stage1_of evs with
  | Some (inr _) => True
  | _ => stage2_of evs = None
  end.

(** *** Observations for the search flag *)

Definition is_search (e : Event) : bool :=
  match e with
  | EvSearch _ => true
  | _ => false
  end.

(** A render pass that hands a redirect element to the framework. *)
Definition is_redirect (e : Effect) : bool :=
  match e with
  | EffRender v =>
      match view_redirect v with
      | Some _ => true
      | None => false
      end
  | _ => false
  end.

(** A render pass whose redirect element is
    [<Redirect to={Paths.browse} push={true} />]. *)
Definition is_navigation_to_browse (e : Effect) : bool :=
  match e with
  | EffRender v =>
      match view_redirect v with
      | Some r => String.eqb (redirect_to r) Paths_browse && redirect_push r
      | None => false
      end
  | _ => false
  end.

(** No submission overlaps another: starting with the flag [armed], each
    search is followed by a render pass before the next search and before
    the events end. *)
Fixpoint searches_rendered (armed : bool) (evs : list Event) : bool :=
  match evs with
  | [] => negb armed
  | EvSearch _ :: rest => negb armed && searches_rendered true rest
  | EvRender :: rest => searches_rendered false rest
  | _ :: rest => searches_rendered armed rest
  end.

(** *** Observations for the preferences *)

(** The last value a list of events sets a preference to, [current] if
    it sets none. *)
Fixpoint last_gameScale (evs : list Event) (current : number) : number :=
  match evs with
  | [] => current
  | EvScaleSliderChange value :: rest => last_gameScale rest value
  | _ :: rest => last_gameScale rest current
  end.

Fixpoint last_gameLayout (evs : list Event) (current : BrowsePageLayout)
    : BrowsePageLayout :=
  match evs with
  | [] => current
  | EvLayoutSelectorChange value :: rest => last_gameLayout rest value
  | _ :: rest => last_gameLayout rest current
  end.

Fixpoint last_showExtreme (evs : list Event) (current : bool) : bool :=
  match evs with
  | [] => current
  | EvExtremeChange isChecked :: rest => last_showExtreme rest isChecked
  | _ :: rest => last_showExtreme rest current
  end.

Definition is_preference_write (e : Effect) : bool :=
  match e with
  | EffPreferenceWrite _ => true
  | _ => false
  end.

(** *** Observations for the log channel *)

(** The snapshot delivered last by a list of events to a component that
    listens throughout: a push delivers its snapshot, a replay the log the
    main process holds ([main]); [shown] is the text displayed before. *)
Fixpoint last_delivered (evs : list Event) (main shown : string) : string :=
  match evs with
  | [] => shown
  | EvLogPush fullLog :: rest => last_delivered rest fullLog fullLog
  | EvReplay :: rest => last_delivered rest main main
  | _ :: rest => last_delivered rest main shown
  end.

Definition is_unmount (e : Event) : bool :=
  match e with
  | EvUnmount => true
  | _ => false
  end.

Definition is_replay (e : Event) : bool :=
  match e with
  | EvReplay => true
  | _ => false
  end.

Definition is_ipc_on (e : Effect) : bool :=
  match e with
  | EffIpcOn _ => true
  | _ => false
  end.

Definition is_ipc_removeListener (e : Effect) : bool :=
  match e with
  | EffIpcRemoveListener _ => true
  | _ => false
  end.

Definition is_resend (e : Effect) : bool :=
  match e with
  | EffResendLogDataUpdate => true
  | _ => false
  end.

(** *** Frames *)

(** The keys of [this.state] and of the preferences data. *)
Inductive StateKey :=
| KeyCentral | KeySearch | KeyOrder | KeyLogData | KeyConfig
| KeyGameScale | KeyGameLayout | KeyShowExtreme | KeyUseCustomTitlebar.

Inductive PreferenceKey :=
| KeyBrowsePageGameScale | KeyBrowsePageLayout | KeyBrowsePageShowExtreme.

(** [s'] has the value of [s] under every key other than [k]. *)
Definition state_unchanged_except (k : StateKey) (s s' : IAppState) : Prop :=
  (k <> KeyCentral -> central s' = central s)
  /\ (k <> KeySearch -> search s' = search s)
  /\ (k <> KeyOrder -> order s' = order s)
  /\ (k <> KeyLogData -> logData s' = logData s)
  /\ (k <> KeyConfig -> config s' = config s)
  /\ (k <> KeyGameScale -> gameScale s' = gameScale s)
  /\ (k <> KeyGameLayout -> gameLayout s' = gameLayout s)
  /\ (k <> KeyShowExtreme -> showExtreme s' = showExtreme s)
  /\ (k <> KeyUseCustomTitlebar -> useCustomTitlebar s' = useCustomTitlebar s).

Definition preferences_unchanged_except (k : PreferenceKey)
    (d d' : IAppPreferencesData) : Prop :=
  (k <> KeyBrowsePageGameScale -> browsePageGameScale d' = browsePageGameScale d)
  /\ (k <> KeyBrowsePageLayout -> browsePageLayout d' = browsePageLayout d)
  /\ (k <> KeyBrowsePageShowExtreme ->
      browsePageShowExtreme d' = browsePageShowExtreme d).

(** What a run of the component keeps true of the log subscription:
    nothing is attached and nothing was delivered before the mount; from
    the mount on, one listener was attached and one replay requested,
    the replay is either owed or delivered; the listener is removed by
    the unmount. *)
Definition subscription_inv (evs : list Event) (w : World) : Prop :=
  let replays := length (List.filter is_replay evs) in
  let ons := length (List.filter is_ipc_on (effects w)) in
  let resends := length (List.filter is_resend (effects w)) in
  let removes := length (List.filter is_ipc_removeListener (effects w)) in
  match lifecycle w with
  | Constructed =>
      listeners w = [] /\ resendRequests w = 0 /\ replays = 0
      /\ ons = 0 /\ resends = 0 /\ removes = 0
      /\ logData (state w) = EmptyString
  | Mounted =>
      listeners w = [onLogDataUpdate_bound] /\ replays + resendRequests w = 1
      /\ ons = 1 /\ resends = 1 /\ removes = 0
  | Unmounted =>
      listeners w = [] /\ replays + resendRequests w = 1
      /\ ons = 1 /\ resends = 1 /\ removes = 1
  end.

(** *** Closed forms of a delivery and of a render pass *)

(** The state after the channel has called the listeners [ls] with
    [fullLog], and the calls of [setState] this makes. *)
Definition delivered_state (ls : list Listener) (fullLog : string)
    (s : IAppState) : IAppState :=
  match ls with
  | [] => s
  | _ :: _ => apply_update (UpdLogData fullLog) s
  end.

Definition delivered_effects (ls : list Listener) (fullLog : string)
    : list Effect :=
  List.map (fun _ => EffSetState (UpdLogData fullLog)) ls.

(** The redirect element of a render pass that finds the flag [armed],
    and the view a render pass in [w] hands to the framework. *)
Definition redirect_of (armed : bool) : option Redirect :=
  if armed
  then Some {| redirect_to := Paths_browse; redirect_push := true |}
  else None.

Definition rendered (w : World) : View :=
  view_of (redirect_of (_onSearch w)) (state w).

(** *** Observations for the rest of the component *)

(** The search and the order the events submit last, [current] if they
    submit none. *)
Fixpoint last_search (evs : list Event) (current : option ISearchOnSearchEvent)
    : option ISearchOnSearchEvent :=
  match evs with
  | [] => current
  | EvSearch event :: rest => last_search rest (Some event)
  | _ :: rest => last_search rest current
  end.

Fixpoint last_order (evs : list Event) (current : option IGameOrderChangeEvent)
    : option IGameOrderChangeEvent :=
  match evs with
  | [] => current
  | EvOrderChange event :: rest => last_order rest (Some event)
  | _ :: rest => last_order rest current
  end.

(** The reasons of the rejections among the events, oldest first. *)
Fixpoint rejections (evs : list Event) : list JsError :=
  match evs with
  | [] => []
  | EvPlatformFilenamesSettled (inl e) :: rest => e :: rejections rest
  | EvPlatformsSettled (inl e) :: rest => e :: rejections rest
  | _ :: rest => rejections rest
  end.

(** The number of render passes that find the flag armed, the flag being
    [armed] before the events. *)
Fixpoint redirects_of (armed : bool) (evs : list Event) : nat :=
  match evs with
  | [] => 0
  | EvSearch _ :: rest => redirects_of true rest
  | EvRender :: rest => (if armed then 1 else 0) + redirects_of false rest
  | _ :: rest => redirects_of armed rest
  end.

Definition is_render (e : Event) : bool :=
  match e with
  | EvRender => true
  | _ => false
  end.

Definition is_preference_setter (e : Event) : bool :=
  match e with
  | EvScaleSliderChange _ | EvLayoutSelectorChange _ | EvExtremeChange _ => true
  | _ => false
  end.

Definition is_console_error (e : Effect) : bool :=
  match e with
  | EffConsoleError _ => true
  | _ => false
  end.

Definition is_fetchPlatformFilenames (e : Effect) : bool :=
  match e with
  | EffFetchPlatformFilenames _ => true
  | _ => false
  end.

(** *** The settlement and the life cycle *)

(** No settlement of the load chain comes after an unmount: the call of
    [setState] that [onDataLoaded] makes reaches a component that is not
    unmounted. *)
Fixpoint alive_at_settlement (evs : list Event) : bool :=
  match evs with
  | [] => true
  | EvUnmount :: rest => negb (existsb settles_load rest)
  | _ :: rest => alive_at_settlement rest
  end.

(** Modelled from the spec: what the promise of
    [LaunchboxData.fetchPlatforms] settles with is decided outside the
    sources at hand.  Stage 2 is to parse "the resolved names" it is
    given: a settlement of stage 2 is what [LaunchboxData_fetchPlatforms]
    makes of the file names the component called it with. *)
Definition stage2_answers_the_call (parse : string -> JsError + list IGame)
    (evs : list Event) (w : World) : Prop :=
  forall flashpointPath platformFilenames r,
    In (EffFetchPlatforms flashpointPath platformFilenames) (effects w) ->
    In (EvPlatformsSettled r) evs ->
    r = LaunchboxData_fetchPlatforms parse platformFilenames.

(** Modelled from the spec: a platform source is "one external definition
    file describing one platform's games", so a game belongs to the
    platform of the source it was parsed from. *)
Definition parsed_from (parse : string -> JsError + list IGame)
    (name : string) (game : IGame) : Prop :=
  exists parsed, parse name = inr parsed /\ In game parsed.

(** [platform] is the platform the file name [name] stands for: the text
    of [name] before its first dot. *)
Definition platform_named_by (name platform : string) : Prop :=
  has_dot platform = false
  /\ exists rest,
       name = (platform ++ rest)%string
       /\ (rest = EmptyString \/ exists r, rest = String "."%char r).

End App.

(** ** A concrete launcher

    An instance of the imported declarations and concrete inputs, on
    which the statements below are exercised. *)

Module Demo.

#[local] Instance collaborators : Collaborators :=
  {| IGame := string;
     ISearchOnSearchEvent := string;
     IGameOrderChangeEvent := string;
     BrowsePageLayout := bool;
     JsError := string;
     Paths_browse := "/browse";
     appTitle := "Launcher";
     appVersionString := "1.0" |}.

Definition config : IAppConfigData :=
  {| config_flashpointPath := "/flashpoint"; config_useCustomTitlebar := true |}.

Definition prefs : IAppPreferencesData :=
  {| browsePageGameScale := 0.5%float;
     browsePageLayout := false;
     browsePageShowExtreme := false |}.

Definition start : World := App_constructor config prefs "boot".

(** Two platform sources, with 3 and 5 games. *)
Definition filenames : list string := ["Flash.xml"; "Shockwave.v2.xml"].

Definition flash_games : list IGame := ["f1"; "f2"; "f3"].

Definition shockwave_games : list IGame := ["s1"; "s2"; "s3"; "s4"; "s5"].

Definition parse (name : string) : JsError + list IGame :=
  if String.eqb name "Flash.xml" then inr flash_games
  else if String.eqb name "Shockwave.v2.xml" then inr shockwave_games
  else inl "ENOENT".

(** The world after [evs], or [w] itself where [evs] cannot happen. *)
Definition after (w : World) (evs : list Event) : World :=
  match run w evs with
  | Some w' => w'
  | None => w
  end.

(** The central state a successful load joins. *)
Definition joined : ICentralState :=
  {| central_collection := {| games := (flash_games ++ shockwave_games)%list |};
     central_flashpointPath := "/flashpoint";
     central_gameImages := 0 |}.

Definition load_succeeds : list Event :=
  [EvRender; EvMount;
   EvPlatformFilenamesSettled (inr filenames);
   EvSearch "tetris";
   EvPlatformsSettled (LaunchboxData_fetchPlatforms parse filenames);
   EvRender].

Definition stage1_fails : list Event :=
  [EvRender; EvMount; EvPlatformFilenamesSettled (inl "EACCES"); EvRender].

Definition stage2_fails : list Event :=
  [EvMount;
   EvPlatformFilenamesSettled (inr filenames);
   EvLogPush "reading platforms";
   EvPlatformsSettled (inl "malformed xml")].

Definition preference_changes : list Event :=
  [EvScaleSliderChange 1.5%float; EvExtremeChange true;
   EvOrderChange "title"; EvScaleSliderChange 0.75%float;
   EvLayoutSelectorChange true].

Definition searches : list Event :=
  [EvMount; EvSearch "tetris"; EvOrderChange "title"; EvRender; EvRender;
   EvSearch "pong"; EvLogPush "launching"; EvRender; EvUnmount].

Definition log_pushes : list Event :=
  [EvLogPush "line1"; EvSearch "tetris"; EvLogPush "line2"].

Definition early_pushes : list Event :=
  [EvLogPush "boot"; EvLogPush "boot, server up"].

(** The component is unmounted between the two stages of the load. *)
Definition before_unmount : list Event :=
  [EvMount; EvPlatformFilenamesSettled (inr filenames)].

Definition after_unmount : list Event :=
  [EvLogPush "late"; EvPlatformsSettled (inr {| games := flash_games |})].

Definition armed : list Event :=
  [EvMount; EvSearch "tetris"; EvRender; EvOrderChange "title"; EvSearch "pong"].

Definition one_search : list Event := [EvSearch "tetris"].

Definition one_search_rendered : list Event := [EvSearch "tetris"; EvRender].

Definition overlapping : list Event :=
  [EvSearch "tetris"; EvSearch "pong"; EvRender; EvRender;
   EvPlatformFilenamesSettled (inl "EACCES"); EvSearch "doom"; EvRender].

End Demo.

Section Properties.

Context `{Collaborators}.

(** ** Basic facts *)

Lemma split_go_nonempty sep s acc : split_go sep s acc <> [].
Proof.
  revert acc. induction s as [|c rest IH]; intros acc; cbn.
  - discriminate.
  - destruct (Ascii.eqb c sep); [discriminate | apply IH].
Qed.

Lemma append_nil_r (s : string) : (s ++ "")%string = s.
Proof.
  induction s as [|c s IH]; [reflexivity|].
  change (String c (s ++ "")%string = String c s). rewrite IH. reflexivity.
Qed.

Lemma append_assoc (a b c : string) :
  ((a ++ b) ++ c)%string = (a ++ (b ++ c))%string.
Proof.
  induction a as [|x a IH]; [reflexivity|].
  change (String x ((a ++ b) ++ c)%string = String x (a ++ (b ++ c))%string).
  rewrite IH. reflexivity.
Qed.

(** The first segment of a split at the dots is the text before the
    first dot. *)
Lemma split_go_head s : forall acc,
  exists p rest tail,
    split_go "."%char s acc = (acc ++ p)%string :: tail
    /\ s = (p ++ rest)%string
    /\ has_dot p = false
    /\ (rest = EmptyString \/ exists r, rest = String "."%char r).
Proof.
  induction s as [|c s IH]; intros acc; cbn.
  - exists EmptyString, EmptyString, []. rewrite append_nil_r. auto.
  - destruct (Ascii.eqb c ".") eqn:Hc.
    + apply Ascii.eqb_eq in Hc as ->.
      exists EmptyString, (String "."%char s), (split_go "."%char s EmptyString).
      rewrite append_nil_r. eauto 10.
    + destruct (IH (acc ++ String c EmptyString)%string)
        as (p & rest & tail & Hsplit & -> & Hp & Hrest).
      exists (String c p), rest, tail. rewrite Hsplit, append_assoc. cbn.
      rewrite Hc, Hp. auto.
Qed.

Lemma split_go_no_dot s : forall acc,
  has_dot s = false -> split_go "."%char s acc = [(acc ++ s)%string].
Proof.
  induction s as [|c s IH]; intros acc Hs; cbn in *.
  - rewrite append_nil_r. reflexivity.
  - apply orb_false_iff in Hs as [Hc Hs]. rewrite Hc, (IH _ Hs), append_assoc.
    reflexivity.
Qed.

Lemma run_app w evs1 evs2 :
  run w (evs1 ++ evs2) =
  match run w evs1 with
  | Some w' => run w' evs2
  | None => None
  end.
Proof.
  revert w. induction evs1 as [|e evs1 IH]; intros w; cbn; [reflexivity|].
  destruct (step e w); [apply IH | reflexivity].
Qed.

Lemma run_snoc w evs e :
  run w (evs ++ [e]) =
  match run w evs with
  | Some w' => step e w'
  | None => None
  end.
Proof.
  rewrite run_app. destruct (run w evs) as [w'|]; [|reflexivity].
  cbn. destruct (step e w'); reflexivity.
Qed.

(** *** What a delivery on the log channel does *)

Lemma delivered_state_cases ls fullLog s :
  delivered_state ls fullLog s = s
  \/ delivered_state ls fullLog s = apply_update (UpdLogData fullLog) s.
Proof. destruct ls; [left | right]; reflexivity. Qed.

Lemma exec_call_listeners ls fullLog w :
  exec (call_listeners ls fullLog) w =
  set_state (delivered_state ls fullLog (state w))
    (set_effects (effects w ++ delivered_effects ls fullLog) w).
Proof.
  revert w. induction ls as [|l rest IH]; intros w.
  - destruct w; cbn. unfold set_state, set_effects; cbn.
    rewrite app_nil_r. reflexivity.
  - destruct l. cbn [call_listeners call_listener].
    change (exec (bind (onLogDataUpdate fullLog)
                   (fun _ => call_listeners rest fullLog)) w)
      with (exec (call_listeners rest fullLog) (exec (onLogDataUpdate fullLog) w)).
    rewrite IH. destruct w; cbn. unfold set_state, set_effects; cbn.
    rewrite <- app_assoc. cbn.
    destruct rest; reflexivity.
Qed.

Lemma exec_ipc_emit fullLog w :
  exec (ipc_emit fullLog) w =
  set_state (delivered_state (listeners w) fullLog (state w))
    (set_effects (effects w ++ delivered_effects (listeners w) fullLog) w).
Proof. apply exec_call_listeners. Qed.

Lemma filter_delivered_effects p ls fullLog :
  p (EffSetState (UpdLogData fullLog)) = false ->
  List.filter p (delivered_effects ls fullLog) = [].
Proof.
  intros Hp. induction ls as [|l rest IH]; cbn; [reflexivity|].
  rewrite Hp. exact IH.
Qed.

(** *** What a render pass does *)

Lemma exec_render w :
  exec (bind render (fun v => log (EffRender v))) w =
  set_effects (effects w ++ [EffRender (rendered w)]) (set_onSearch false w).
Proof.
  destruct w as [s armed p h ls ml rr pd lc effs].
  destruct armed; reflexivity.
Qed.

Lemma rendered_redirect w : view_redirect (rendered w) = redirect_of (_onSearch w).
Proof. reflexivity. Qed.

(** *** The load chain, for every interleaving of events *)

Lemma stage1_of_snoc evs e :
  stage1_of (evs ++ [e]) =
  match stage1_of evs with
  | Some r => Some r
  | None => stage1_of [e]
  end.
Proof.
  induction evs as [|x evs IH]; [reflexivity|].
  destruct x; cbn; try exact IH; reflexivity.
Qed.

Lemma stage2_of_snoc evs e :
  stage2_of (evs ++ [e]) =
  match stage2_of evs with
  | Some r => Some r
  | None => stage2_of [e]
  end.
Proof.
  induction evs as [|x evs IH]; [reflexivity|].
  destruct x; cbn; try exact IH; reflexivity.
Qed.

#[local] Arguments delivered_effects : simpl never.
#[local] Arguments delivered_state : simpl never.

Ltac filter_effects :=
  cbn; repeat rewrite List.filter_app; cbn;
  repeat (rewrite filter_delivered_effects by reflexivity);
  repeat rewrite app_nil_r.

(** An event that settles no promise leaves the load chain's part of the
    world as it is. *)
Lemma step_load_view e w w' :
  step e w = Some w' -> is_settlement e = false -> load_view w' = load_view w.
Proof.
  intros Hstep Hns. unfold load_view.
  destruct e; try discriminate Hns; cbn in Hstep.
  - destruct (lifecycle w); inversion Hstep; subst; filter_effects; reflexivity.
  - destruct (lifecycle w); inversion Hstep; subst; filter_effects; reflexivity.
  - rewrite exec_render in Hstep.
    destruct (lifecycle w); inversion Hstep; subst; filter_effects; reflexivity.
  - inversion Hstep; subst; filter_effects; reflexivity.
  - inversion Hstep; subst; filter_effects; reflexivity.
  - inversion Hstep; subst; filter_effects; reflexivity.
  - inversion Hstep; subst; filter_effects; reflexivity.
  - inversion Hstep; subst; filter_effects; reflexivity.
  - inversion Hstep; subst. rewrite exec_ipc_emit. filter_effects.
    destruct (delivered_state_cases (listeners w) fullLog (state w)) as [-> | ->];
      reflexivity.
  - destruct (resendRequests w); inversion Hstep; subst.
    rewrite exec_ipc_emit. filter_effects.
    destruct (delivered_state_cases (listeners w) (mainLog w) (state w)) as [-> | ->];
      reflexivity.
Qed.

Lemma load_view_run cfg prefs log0 evs w :
  run (App_constructor cfg prefs log0) evs = Some w ->
  load_view w = load_chain cfg (stage1_of evs) (stage2_of evs)
  /\ stage2_after_stage1 evs.
Proof.
  revert w. induction evs as [|e evs IH] using rev_ind; intros w Hrun.
  - inversion Hrun; subst. split; reflexivity.
  - rewrite run_snoc in Hrun.
    destruct (run (App_constructor cfg prefs log0) evs) as [w0|]; [|discriminate].
    destruct (IH w0 eq_refl) as [Hv Hwf]. clear IH.
    unfold stage2_after_stage1 in *.
    rewrite stage1_of_snoc, stage2_of_snoc.
    destruct (is_settlement e) eqn:Hs.
    + unfold load_view in Hv.
      destruct e as [r|r| | | | | | | | | |]; try discriminate Hs; cbn in Hrun.
      * destruct (pending w0) eqn:Hp; try discriminate Hrun.
        destruct (stage1_of evs) as [[e1|fns]|], (stage2_of evs) as [[e2|c]|];
          try discriminate Hwf; cbn in Hv; try discriminate Hv.
        injection Hv as Hcfg' Hgi Hc Hcfg Hh He. subst.
        inversion Hrun; subst; clear Hrun.
        unfold load_view. destruct r as [e1|fns]; cbn.
        -- rewrite ?Hc, ?Hcfg, ?Hh. filter_effects. rewrite He. auto.
        -- rewrite ?Hc, ?Hcfg, ?Hh. filter_effects. rewrite He.
           rewrite alter_singleton_eq. auto.
      * destruct (pending w0) eqn:Hp; try discriminate Hrun.
        destruct (stage1_of evs) as [[e1|fns]|], (stage2_of evs) as [[e2|c]|];
          try discriminate Hwf; cbn in Hv; try discriminate Hv.
        injection Hv as Hgi Hc Hcfg Hh He. subst.
        inversion Hrun; subst; clear Hrun.
        unfold load_view. destruct r as [e2|c]; cbn.
        -- rewrite ?Hcfg, ?Hh. filter_effects. rewrite He. auto.
        -- rewrite ?Hcfg, ?Hh. filter_effects. rewrite He. auto.
    + rewrite (step_load_view _ _ _ Hrun Hs), Hv.
      assert (stage1_of [e] = None) as -> by (destruct e; try discriminate Hs; reflexivity).
      assert (stage2_of [e] = None) as -> by (destruct e; try discriminate Hs; reflexivity).
      destruct (stage1_of evs) as [[e1|fns]|], (stage2_of evs) as [[e2|c]|];
        try discriminate Hwf; auto.
Qed.

Lemma stage1_of_app evs1 evs2 :
  stage1_of (evs1 ++ evs2) =
  match stage1_of evs1 with
  | Some r => Some r
  | None => stage1_of evs2
  end.
Proof.
  induction evs1 as [|x evs1 IH]; [reflexivity|].
  destruct x; cbn; try exact IH; reflexivity.
Qed.

Lemma stage2_of_app evs1 evs2 :
  stage2_of (evs1 ++ evs2) =
  match stage2_of evs1 with
  | Some r => Some r
  | None => stage2_of evs2
  end.
Proof.
  induction evs1 as [|x evs1 IH]; [reflexivity|].
  destruct x; cbn; try exact IH; reflexivity.
Qed.

(** In a run of the component each promise settles at most once: a
    settlement that occurs in the run is the settlement of its stage. *)
Lemma stage1_of_In cfg prefs log0 evs w r :
  run (App_constructor cfg prefs log0) evs = Some w ->
  In (EvPlatformFilenamesSettled r) evs ->
  stage1_of evs = Some r.
Proof.
  intros Hrun Hin. apply in_split in Hin as (before & after & ->).
  rewrite run_app in Hrun.
  destruct (run (App_constructor cfg prefs log0) before) as [w0|] eqn:Hb;
    [|discriminate].
  destruct (load_view_run _ _ _ _ _ Hb) as [Hv _].
  cbn in Hrun. unfold load_view in Hv.
  destruct (pending w0) eqn:Hp; try discriminate Hrun.
  rewrite stage1_of_app.
  destruct (stage1_of before) as [[e1|fns]|]; [| |reflexivity].
  - discriminate Hv.
  - destruct (stage2_of before) as [[e2|c]|]; discriminate Hv.
Qed.

Lemma stage2_of_In cfg prefs log0 evs w r :
  run (App_constructor cfg prefs log0) evs = Some w ->
  In (EvPlatformsSettled r) evs ->
  stage2_of evs = Some r.
Proof.
  intros Hrun Hin. apply in_split in Hin as (before & after & ->).
  rewrite run_app in Hrun.
  destruct (run (App_constructor cfg prefs log0) before) as [w0|] eqn:Hb;
    [|discriminate].
  destruct (load_view_run _ _ _ _ _ Hb) as [Hv _].
  cbn in Hrun. unfold load_view in Hv.
  destruct (pending w0) eqn:Hp; try discriminate Hrun.
  rewrite stage2_of_app.
  destruct (stage1_of before) as [[e1|fns]|]; try discriminate Hv.
  destruct (stage2_of before) as [[e2|c]|]; try discriminate Hv.
  reflexivity.
Qed.

Lemma stage1_of_Some_In evs r :
  stage1_of evs = Some r -> In (EvPlatformFilenamesSettled r) evs.
Proof.
  induction evs as [|x evs IH]; [discriminate|].
  destruct x; cbn; intros Hs; try (right; apply IH; exact Hs).
  left. congruence.
Qed.

Lemma stage2_of_Some_In evs r :
  stage2_of evs = Some r -> In (EvPlatformsSettled r) evs.
Proof.
  induction evs as [|x evs IH]; [discriminate|].
  destruct x; cbn; intros Hs; try (right; apply IH; exact Hs).
  left. congruence.
Qed.

(** The load chain's view of a run, taken apart. *)
Lemma load_fields cfg prefs log0 evs w :
  run (App_constructor cfg prefs log0) evs = Some w ->
  let expected := load_chain cfg (stage1_of evs) (stage2_of evs) in
  pending w = expected.1.1.1.1
  /\ central (state w) = expected.1.1.1.2
  /\ config (state w) = expected.1.1.2
  /\ heap w = expected.1.2
  /\ List.filter is_load_effect (effects w) = expected.2
  /\ stage2_after_stage1 evs.
Proof.
  intros Hrun. destruct (load_view_run _ _ _ _ _ Hrun) as [Hv Hwf].
  unfold load_view in Hv. cbv zeta. rewrite <- Hv. cbn. auto 10.
Qed.

Lemma filter_filter_sub (p q : Effect -> bool) l :
  (forall x, p x = true -> q x = true) ->
  List.filter p (List.filter q l) = List.filter p l.
Proof.
  intros Hpq. induction l as [|x l IH]; cbn; [reflexivity|].
  destruct (q x) eqn:Hq; cbn.
  - rewrite IH. reflexivity.
  - destruct (p x) eqn:Hp; [|exact IH].
    apply Hpq in Hp. congruence.
Qed.

Lemma filter_split (p : Effect -> bool) l l1 x l2 :
  List.filter p l = (l1 ++ x :: l2)%list ->
  exists before after,
    l = (before ++ x :: after)%list
    /\ List.filter p before = l1 /\ List.filter p after = l2.
Proof.
  revert l1. induction l as [|y l IH]; intros l1 Hf; cbn in Hf.
  - destruct l1; discriminate Hf.
  - destruct (p y) eqn:Hp.
    + destruct l1 as [|z l1]; cbn in Hf.
      * injection Hf as -> Hl. exists [], l. cbn. auto.
      * injection Hf as -> Hl. destruct (IH _ Hl) as (b & a & -> & Hb & Ha).
        exists (z :: b), a. cbn. rewrite Hp, Hb. auto.
    + destruct (IH _ Hf) as (b & a & -> & Hb & Ha).
      exists (y :: b), a. cbn. rewrite Hp. auto.
Qed.

Lemma filter_In (p : Effect -> bool) l x : In x (List.filter p l) -> In x l.
Proof. intros Hin. apply List.filter_In in Hin. tauto. Qed.

Lemma parse_platforms_all parse platformFilenames per_platform :
  List.map parse platformFilenames = List.map inr per_platform ->
  parse_platforms parse platformFilenames = inr (concat per_platform).
Proof.
  revert per_platform.
  induction platformFilenames as [|name rest IH]; intros [|parsed more] Hall;
    try discriminate Hall; [reflexivity|].
  cbn in Hall. injection Hall as Hname Hrest.
  cbn. rewrite Hname, (IH _ Hrest). reflexivity.
Qed.

(** The central state handed to [setState] is the one the state holds
    where every call is merged. *)
Lemma central_handed_iff cfg prefs log0 evs w c :
  run (App_constructor cfg prefs log0) evs = Some w ->
  In (EffSetState (UpdCentral c)) (effects w) <-> central (state w) = Some c.
Proof.
  intros Hrun.
  destruct (load_fields _ _ _ _ _ Hrun) as (_ & Hc & _ & _ & He & _).
  assert (In (EffSetState (UpdCentral c)) (effects w)
          <-> In (EffSetState (UpdCentral c))
                 (List.filter is_load_effect (effects w))) as ->.
  { rewrite List.filter_In. cbn. tauto. }
  rewrite He, Hc. clear He Hc.
  destruct (stage1_of evs) as [[e1|fns]|];
    [|destruct (stage2_of evs) as [[e2|col]|]|];
    (split;
     [ intros Hin; cbn in Hin;
       repeat (destruct Hin as [Hin|Hin];
               [first [discriminate Hin | injection Hin as <-; reflexivity]|]);
       contradiction
     | intros H0; cbn in H0; try discriminate H0; injection H0 as <-;
       cbn; auto 10 ]).
Qed.

(** A game of the merged collection was parsed from one of the sources. *)
Lemma parse_platforms_provenance parse names : forall all game,
  parse_platforms parse names = inr all ->
  In game all ->
  exists name, In name names /\ parsed_from parse name game.
Proof.
  induction names as [|name rest IH]; intros all game Hall Hin; cbn in Hall.
  - injection Hall as <-. contradiction.
  - destruct (parse name) as [e|parsed] eqn:Hname; [discriminate Hall|].
    destruct (parse_platforms parse rest) as [e|more]; [discriminate Hall|].
    injection Hall as <-. apply in_app_or in Hin as [Hin | Hin].
    + exists name. split; [left; reflexivity|]. exists parsed. auto.
    + destruct (IH _ _ eq_refl Hin) as (name' & Hin' & Hfrom).
      exists name'. split; [right; exact Hin' | exact Hfrom].
Qed.

Lemma platform_of_filename_named name :
  platform_named_by name (platform_of_filename name).
Proof.
  unfold platform_named_by, platform_of_filename, split.
  destruct (split_go_head name EmptyString)
    as (p & rest & tail & -> & Hname & Hp & Hrest).
  cbn. split; [exact Hp|]. exists rest. auto.
Qed.

(** ** The two-stage load *)

(** C1: in every run of the component in which stage 1 (the resolution
    of the platform file names) or stage 2 (the parsing of the platforms)
    is rejected, a central state is constructed and handed to [setState],
    and its collection is the empty sequence of games, not an undefined
    one; where no settlement comes after an unmount, this central state is
    the one of the component's state. *)
Theorem failed_load_yields_empty_collection cfg prefs log0 evs w :
  run (App_constructor cfg prefs log0) evs = Some w ->
  (exists e, In (EvPlatformFilenamesSettled (inl e)) evs)
  \/ (exists e, In (EvPlatformsSettled (inl e)) evs) ->
  exists c,
    In (EffSetState (UpdCentral c)) (effects w)
    /\ central_collection c = {| games := [] |}
    /\ (alive_at_settlement evs = true -> central (state w) = Some c).
Proof.
  intros Hrun Hfail.
  destruct (load_fields _ _ _ _ _ Hrun) as (_ & Hc & _ & _ & _ & Hwf).
  unfold stage2_after_stage1 in Hwf.
  assert (exists c, central (state w) = Some c
                    /\ central_collection c = {| games := [] |})
    as (c & Hcentral & Hempty).
  { destruct Hfail as [[e Hin] | [e Hin]].
    - rewrite (stage1_of_In _ _ _ _ _ _ Hrun Hin) in Hc.
      eexists. split; [exact Hc | reflexivity].
    - rewrite (stage2_of_In _ _ _ _ _ _ Hrun Hin) in Hc, Hwf.
      destruct (stage1_of evs) as [[e1|fns]|]; try discriminate Hwf.
      eexists. split; [exact Hc | reflexivity]. }
  exists c. split; [|split; [exact Hempty | intros _; exact Hcentral]].
  apply (central_handed_iff _ _ _ _ _ _ Hrun). exact Hcentral.
Qed.

(** Where the state holds a central state, the image collection it
    refers to holds the platform name of every resolved file name, and
    [addPlatforms] was called before the [setState] of the central
    state. *)
Lemma images_registered_when_set cfg prefs log0 evs w c :
  run (App_constructor cfg prefs log0) evs = Some w ->
  central (state w) = Some c ->
  exists g before after,
    heap w !! central_gameImages c = Some g
    /\ effects w = (before ++ EffSetState (UpdCentral c) :: after)%list
    /\ (forall platformFilenames,
          In (EvPlatformFilenamesSettled (inr platformFilenames)) evs ->
          In (EffAddPlatforms (List.map platform_of_filename platformFilenames)) before
          /\ forall name, In name platformFilenames ->
               platform_of_filename name ∈ images_platforms g)
    /\ ((forall platformFilenames,
           ~ In (EvPlatformFilenamesSettled (inr platformFilenames)) evs) ->
        games (central_collection c) = []).
Proof.
  intros Hrun Hcentral.
  destruct (load_fields _ _ _ _ _ Hrun) as (_ & Hc & _ & Hh & He & Hwf).
  unfold stage2_after_stage1 in Hwf. rewrite Hcentral in Hc.
  assert (forall fns, In (EvPlatformFilenamesSettled (inr fns)) evs ->
            stage1_of evs = Some (inr fns)) as Hres
    by (intros fns Hin; exact (stage1_of_In _ _ _ _ _ _ Hrun Hin)).
  destruct (stage1_of evs) as [[e1|fns]|] eqn:Hs1; cbn in Hc, Hh, He.
  - injection Hc as ->.
    apply (filter_split is_load_effect _ [_; _; _] _ []) in He
      as (before & after & Heff & _ & _).
    eexists _, before, after. cbn. rewrite Hh, lookup_singleton_eq.
    split; [reflexivity|]. split; [exact Heff|]. split; [|reflexivity].
    intros fns Hin. apply Hres in Hin. discriminate Hin.
  - assert (forall name, In name fns ->
              platform_of_filename name ∈
                images_platforms
                  (GameImageCollection_addPlatforms
                     (List.map platform_of_filename fns)
                     (GameImageCollection_new (config_flashpointPath cfg))))
      as Hreg.
    { intros name Hname. cbn. apply elem_of_union_r, elem_of_list_to_set.
      apply list_elem_of_In, in_map, Hname. }
    destruct (stage2_of evs) as [[e2|col]|]; cbn in Hc, Hh, He;
      try discriminate Hc; injection Hc as ->.
    + apply (filter_split is_load_effect _ [_; _; _; _; _] _ []) in He
        as (before & after & Heff & Hb & _).
      eexists _, before, after. cbn. rewrite Hh, lookup_singleton_eq.
      split; [reflexivity|]. split; [exact Heff|]. split.
      * intros fns' Hin. apply Hres in Hin. injection Hin as ->.
        split; [|exact Hreg].
        apply (filter_In is_load_effect). rewrite Hb. right; left; reflexivity.
      * intros Hnone. exfalso. apply (Hnone fns).
        apply stage1_of_Some_In, Hs1.
    + apply (filter_split is_load_effect _ [_; _; _; _] _ []) in He
        as (before & after & Heff & Hb & _).
      eexists _, before, after. cbn. rewrite Hh, lookup_singleton_eq.
      split; [reflexivity|]. split; [exact Heff|]. split.
      * intros fns' Hin. apply Hres in Hin. injection Hin as ->.
        split; [|exact Hreg].
        apply (filter_In is_load_effect). rewrite Hb. right; left; reflexivity.
      * intros Hnone. exfalso. apply (Hnone fns).
        apply stage1_of_Some_In, Hs1.
  - discriminate Hc.
Qed.

(** C2 (the image collection and the settlement of stage 2 are modelled
    from the spec): in every run of the component, for every central
    state handed to [setState], the image collection it refers to exists
    and holds, for every file name that stage 1 resolved, the platform
    this file name stands for (its text before the first dot); the call
    of [addPlatforms] comes before the [setState] that makes the central
    state visible; and every game of its collection was parsed from a
    source whose platform the image collection holds, so that no central
    state has a game of a platform without an entry.  Where no settlement
    comes after an unmount, this central state is the one of the
    component's state. *)
Theorem central_state_has_images_registered cfg prefs log0 parse evs w c :
  run (App_constructor cfg prefs log0) evs = Some w ->
  stage2_answers_the_call parse evs w ->
  In (EffSetState (UpdCentral c)) (effects w) ->
  exists g before after,
    heap w !! central_gameImages c = Some g
    /\ effects w = (before ++ EffSetState (UpdCentral c) :: after)%list
    /\ (forall platformFilenames,
          In (EvPlatformFilenamesSettled (inr platformFilenames)) evs ->
          In (EffAddPlatforms (List.map platform_of_filename platformFilenames)) before
          /\ forall name, In name platformFilenames ->
               exists platform,
                 platform_named_by name platform
                 /\ platform ∈ images_platforms g)
    /\ (forall game, In game (games (central_collection c)) ->
          exists name platform,
            parsed_from parse name game
            /\ platform_named_by name platform
            /\ platform ∈ images_platforms g)
    /\ (alive_at_settlement evs = true -> central (state w) = Some c).
Proof.
  intros Hrun Hanswer Hhanded.
  pose proof (proj1 (central_handed_iff _ _ _ _ _ _ Hrun) Hhanded) as Hcentral.
  destruct (images_registered_when_set _ _ _ _ _ _ Hrun Hcentral)
    as (g & before & after & Hg & Heff & Hreg & Hnone).
  exists g, before, after.
  split; [exact Hg|]. split; [exact Heff|]. split; [|split].
  - intros fns Hin. destruct (Hreg fns Hin) as [Hadd Hnames].
    split; [exact Hadd|]. intros name Hname.
    exists (platform_of_filename name).
    split; [apply platform_of_filename_named | exact (Hnames name Hname)].
  - intros game Hgame.
    destruct (load_fields _ _ _ _ _ Hrun) as (_ & Hc & _ & _ & He & _).
    rewrite Hcentral in Hc.
    destruct (stage1_of evs) as [[e1|fns]|] eqn:Hs1; cbn in Hc, He;
      try discriminate Hc.
    + injection Hc as ->. contradiction.
    + destruct (stage2_of evs) as [[e2|col]|] eqn:Hs2; cbn in Hc, He;
        try discriminate Hc; injection Hc as ->; [contradiction|].
      cbn in Hgame.
      assert (In (EffFetchPlatforms (config_flashpointPath cfg) fns) (effects w))
        as Hcall.
      { apply (filter_In is_load_effect). rewrite He. right; right; left.
        reflexivity. }
      pose proof (Hanswer _ _ _ Hcall (stage2_of_Some_In _ _ Hs2)) as Hr.
      unfold LaunchboxData_fetchPlatforms in Hr.
      destruct (parse_platforms parse fns) as [e|all] eqn:Hall;
        [discriminate Hr|].
      injection Hr as ->. cbn in Hgame.
      destruct (parse_platforms_provenance _ _ _ _ Hall Hgame)
        as (name & Hname & Hfrom).
      exists name, (platform_of_filename name).
      split; [exact Hfrom|]. split; [apply platform_of_filename_named|].
      exact (proj2 (Hreg fns (stage1_of_Some_In _ _ Hs1)) name Hname).
  - intros _. exact Hcentral.
Qed.

(** C3 (the merge and the settlement of stage 2 are modelled from the
    spec): in every run in which stage 1 resolves the platform file
    names, each of which parses to its list of games, and stage 2 settles
    with what [fetchPlatforms] makes of the file names the component
    called it with, the collection of the central state handed to
    [setState] is these lists one after the other in the order of the
    resolved names, so its length is the sum of the game counts; where no
    settlement comes after an unmount, this central state is the one of
    the component's state. *)
Theorem successful_load_collects_all_games
    cfg prefs log0 parse platformFilenames per_platform evs w :
  List.map parse platformFilenames = List.map inr per_platform ->
  run (App_constructor cfg prefs log0) evs = Some w ->
  In (EvPlatformFilenamesSettled (inr platformFilenames)) evs ->
  (exists r, In (EvPlatformsSettled r) evs) ->
  stage2_answers_the_call parse evs w ->
  exists c,
    In (EffSetState (UpdCentral c)) (effects w)
    /\ games (central_collection c) = concat per_platform
    /\ length (games (central_collection c))
       = list_sum (List.map length per_platform)
    /\ (alive_at_settlement evs = true -> central (state w) = Some c).
Proof.
  intros Hall Hrun H1 (r & H2) Hanswer.
  destruct (load_fields _ _ _ _ _ Hrun) as (_ & Hc & _ & _ & He & _).
  rewrite (stage1_of_In _ _ _ _ _ _ Hrun H1) in Hc, He.
  rewrite (stage2_of_In _ _ _ _ _ _ Hrun H2) in Hc, He.
  assert (In (EffFetchPlatforms (config_flashpointPath cfg) platformFilenames)
             (effects w)) as Hcall.
  { apply (filter_In is_load_effect). rewrite He.
    destruct r; right; right; left; reflexivity. }
  pose proof (Hanswer _ _ _ Hcall H2) as Hr.
  unfold LaunchboxData_fetchPlatforms in Hr.
  rewrite (parse_platforms_all _ _ _ Hall) in Hr. subst r. cbn in Hc.
  eexists. split; [|split; [|split]].
  - apply (central_handed_iff _ _ _ _ _ _ Hrun). exact Hc.
  - reflexivity.
  - cbn. apply length_concat.
  - intros _. exact Hc.
Qed.

(** C6: in every run of the component the number of calls of
    [onDataLoaded] is one if the run contains an event that settles the
    load chain (stage 1 rejected, stage 2 resolved or stage 2 rejected)
    and zero if it contains none: the state is assembled exactly once per
    settlement, never twice. *)
Theorem onDataLoaded_once_per_settlement cfg prefs log0 evs w :
  run (App_constructor cfg prefs log0) evs = Some w ->
  length (List.filter is_onDataLoaded (effects w))
  = if existsb settles_load evs then 1 else 0.
Proof.
  intros Hrun.
  destruct (load_fields _ _ _ _ _ Hrun) as (_ & _ & _ & _ & He & Hwf).
  unfold stage2_after_stage1 in Hwf.
  rewrite <- (filter_filter_sub is_onDataLoaded is_load_effect)
    by (intros []; try discriminate; reflexivity).
  rewrite He. clear He.
  destruct (existsb settles_load evs) eqn:Hex.
  - apply existsb_exists in Hex as (x & Hin & Hx).
    destruct x as [[e|fns]|r| | | | | | | | | |]; try discriminate Hx.
    + rewrite (stage1_of_In _ _ _ _ _ _ Hrun Hin). reflexivity.
    + rewrite (stage2_of_In _ _ _ _ _ _ Hrun Hin) in *.
      destruct (stage1_of evs) as [[e1|fns]|]; try discriminate Hwf.
      destruct r; reflexivity.
  - assert (forall x, In x evs -> settles_load x = false) as Hnone.
    { intros x Hin. destruct (settles_load x) eqn:Hx; [|reflexivity].
      rewrite <- Hex. symmetry. apply existsb_exists. eauto. }
    destruct (stage1_of evs) as [[e1|fns]|] eqn:Hs1.
    + apply stage1_of_Some_In, Hnone in Hs1. discriminate Hs1.
    + destruct (stage2_of evs) as [r|] eqn:Hs2; [|reflexivity].
      apply stage2_of_Some_In, Hnone in Hs2. discriminate Hs2.
    + reflexivity.
Qed.

(** C7 (the empty index of a new image collection is modelled from the
    spec): in every run in which stage 1 is rejected, stage 2 is skipped
    (the component calls neither [addPlatforms] nor [fetchPlatforms] and
    no settlement of stage 2 occurs), the collection of the central state
    handed to [setState] has length 0 and the image collection it refers
    to has no platform registered; where the rejection does not come
    after an unmount, this central state is the one of the component's
    state. *)
Theorem stage1_failure_skips_stage2 cfg prefs log0 evs w e :
  run (App_constructor cfg prefs log0) evs = Some w ->
  In (EvPlatformFilenamesSettled (inl e)) evs ->
  (exists c g,
     In (EffSetState (UpdCentral c)) (effects w)
     /\ length (games (central_collection c)) = 0
     /\ heap w !! central_gameImages c = Some g
     /\ size (images_platforms g) = 0
     /\ (alive_at_settlement evs = true -> central (state w) = Some c))
  /\ List.filter is_addPlatforms (effects w) = []
  /\ List.filter is_fetchPlatforms (effects w) = []
  /\ (forall r, ~ In (EvPlatformsSettled r) evs).
Proof.
  intros Hrun Hin.
  destruct (load_fields _ _ _ _ _ Hrun) as (_ & Hc & _ & Hh & He & Hwf).
  unfold stage2_after_stage1 in Hwf.
  rewrite (stage1_of_In _ _ _ _ _ _ Hrun Hin) in *. cbn in Hc, Hh, He.
  split; [|split; [|split]].
  - eexists _, _.
    split; [apply (central_handed_iff _ _ _ _ _ _ Hrun); exact Hc|].
    cbn. split; [reflexivity|].
    rewrite Hh, lookup_singleton_eq. split; [reflexivity|]. cbn.
    split; [apply size_empty | intros _; exact Hc].
  - rewrite <- (filter_filter_sub is_addPlatforms is_load_effect)
      by (intros []; try discriminate; reflexivity).
    rewrite He. reflexivity.
  - rewrite <- (filter_filter_sub is_fetchPlatforms is_load_effect)
      by (intros []; try discriminate; reflexivity).
    rewrite He. reflexivity.
  - intros r Hr. rewrite (stage2_of_In _ _ _ _ _ _ Hrun Hr) in Hwf.
    discriminate Hwf.
Qed.

(** ** The search flag *)

(** Case analysis on an event that can happen: one goal for each way
    [step] succeeds, with the resulting world written out. *)
Ltac step_cases H :=
  lazymatch type of H with
  | step ?e ?w = Some ?w' =>
      destruct e as [[?e|?fns]|[?e|?c]| | | | | | | | | |];
      cbn in H; rewrite ?exec_render, ?exec_ipc_emit in H;
      repeat
        match type of H with
        | context [match ?x with _ => _ end] => destruct x eqn:?
        end;
      try discriminate H;
      injection H as <-;
      rewrite ?exec_ipc_emit
  end.

Lemma filter_snoc {A} (p : A -> bool) (l : list A) x :
  List.filter p (l ++ [x]) = (List.filter p l ++ (if p x then [x] else []))%list.
Proof. rewrite List.filter_app. cbn. destruct (p x); reflexivity. Qed.

(** What one event does to the flag and to the redirects rendered so
    far. *)
Lemma step_search_flag e w w' :
  step e w = Some w' ->
  _onSearch w' =
    match e with
    | EvSearch _ => true
    | EvRender => false
    | _ => _onSearch w
    end
  /\ forall p,
       (p = is_redirect \/ p = is_navigation_to_browse) ->
       length (List.filter p (effects w')) =
       length (List.filter p (effects w))
       + match e with
         | EvRender => if _onSearch w then 1 else 0
         | _ => 0
         end.
Proof.
  intros Hstep.
  step_cases Hstep; (split; [reflexivity|]); intros p [-> | ->]; cbn;
    repeat rewrite filter_snoc; cbn;
    rewrite ?List.filter_app, ?filter_delivered_effects by reflexivity;
    rewrite ?rendered_redirect;
    repeat rewrite length_app; cbn;
    try (destruct (_onSearch w); cbn; rewrite ?String.eqb_refl; cbn);
    lia.
Qed.

Lemma run_search_flag evs : forall w w',
  run w evs = Some w' ->
  searches_rendered (_onSearch w) evs = true ->
  _onSearch w' = false
  /\ forall p,
       (p = is_redirect \/ p = is_navigation_to_browse) ->
       length (List.filter p (effects w')) =
       length (List.filter p (effects w))
       + length (List.filter is_search evs)
       + (if _onSearch w then 1 else 0).
Proof.
  induction evs as [|e evs IH]; intros w w' Hrun Hok; cbn in Hrun.
  - injection Hrun as <-. cbn in Hok.
    destruct (_onSearch w); [discriminate Hok|].
    split; [reflexivity|]. intros p _. cbn. lia.
  - destruct (step e w) as [w1|] eqn:Hstep; [|discriminate Hrun].
    destruct (step_search_flag _ _ _ Hstep) as [Hflag Hcount].
    assert (searches_rendered (_onSearch w1) evs = true
            /\ (if _onSearch w1 then 1 else 0)
               + match e with
                 | EvRender => if _onSearch w then 1 else 0
                 | _ => 0
                 end
               = (if is_search e then 1 else 0) + (if _onSearch w then 1 else 0))
      as [Hok1 Harith].
    { rewrite Hflag.
      destruct e as [r|r| | | |ev|ev|v|v|b|t|]; cbn in Hok |- *;
        try (split; [exact Hok | lia]).
      destruct (_onSearch w); [discriminate Hok|].
      split; [exact Hok | reflexivity]. }
    destruct (IH _ _ Hrun Hok1) as [Hoff Hrest].
    split; [exact Hoff|]. intros p Hp.
    rewrite (Hrest p Hp), (Hcount p Hp). cbn [List.filter].
    destruct (is_search e); cbn [length]; lia.
Qed.

(** C5: over any events that start with the flag disarmed and in which
    every search submission is followed by a render pass before the next
    submission, the render passes hand exactly as many redirect elements
    to the framework as there were submissions, each of them a push to
    [Paths.browse]; a render pass logs one view, whose redirect element
    is present exactly when the flag was armed, and leaves the flag
    disarmed whatever becomes of the element; and no event other than a
    search submission arms the flag. *)
Theorem one_navigation_per_search w evs w' :
  run w evs = Some w' ->
  _onSearch w = false ->
  searches_rendered false evs = true ->
  length (List.filter is_navigation_to_browse (effects w'))
    = length (List.filter is_navigation_to_browse (effects w))
      + length (List.filter is_search evs)
  /\ length (List.filter is_redirect (effects w'))
     = length (List.filter is_redirect (effects w))
       + length (List.filter is_search evs)
  /\ _onSearch w' = false
  /\ (forall v v', step EvRender v = Some v' ->
        _onSearch v' = false
        /\ effects v' = (effects v ++ [EffRender (rendered v)])%list
        /\ view_redirect (rendered v) = redirect_of (_onSearch v))
  /\ (forall e v v', step e v = Some v' ->
        _onSearch v = false -> _onSearch v' = true -> is_search e = true).
Proof.
  intros Hrun Hoff Hok. rewrite <- Hoff in Hok.
  destruct (run_search_flag _ _ _ Hrun Hok) as [Hend Hcount].
  rewrite Hoff in Hcount.
  split; [rewrite (Hcount _ (or_intror eq_refl)); lia|].
  split; [rewrite (Hcount _ (or_introl eq_refl)); lia|].
  split; [exact Hend|]. split.
  - intros v v' Hstep. cbn in Hstep. rewrite exec_render in Hstep.
    destruct (lifecycle v); try discriminate Hstep; injection Hstep as <-;
      (split; [reflexivity|]); (split; [reflexivity|]); apply rendered_redirect.
  - intros e v v' Hstep Hv Hv'.
    destruct (step_search_flag _ _ _ Hstep) as [Hflag _].
    destruct e; try reflexivity; congruence.
Qed.

(** ** The preferences *)

Ltac delivered_cases :=
  repeat
    match goal with
    | |- context [delivered_state ?ls ?t ?s] =>
        destruct (delivered_state_cases ls t s) as [-> | ->]
    end.

Lemma step_preferences e w w' :
  step e w = Some w' ->
  (browsePageGameScale (preferences w')
     = last_gameScale [e] (browsePageGameScale (preferences w))
   /\ gameScale (state w') = last_gameScale [e] (gameScale (state w)))
  /\ (browsePageLayout (preferences w')
        = last_gameLayout [e] (browsePageLayout (preferences w))
      /\ gameLayout (state w') = last_gameLayout [e] (gameLayout (state w)))
  /\ (browsePageShowExtreme (preferences w')
        = last_showExtreme [e] (browsePageShowExtreme (preferences w))
      /\ showExtreme (state w') = last_showExtreme [e] (showExtreme (state w))).
Proof.
  intros Hstep. step_cases Hstep; cbn; delivered_cases; cbn; auto 10.
Qed.

Lemma run_preferences evs : forall w w',
  run w evs = Some w' ->
  (browsePageGameScale (preferences w')
     = last_gameScale evs (browsePageGameScale (preferences w))
   /\ gameScale (state w') = last_gameScale evs (gameScale (state w)))
  /\ (browsePageLayout (preferences w')
        = last_gameLayout evs (browsePageLayout (preferences w))
      /\ gameLayout (state w') = last_gameLayout evs (gameLayout (state w)))
  /\ (browsePageShowExtreme (preferences w')
        = last_showExtreme evs (browsePageShowExtreme (preferences w))
      /\ showExtreme (state w') = last_showExtreme evs (showExtreme (state w))).
Proof.
  induction evs as [|e evs IH]; intros w w' Hrun; cbn in Hrun.
  - injection Hrun as <-. cbn. auto 10.
  - destruct (step e w) as [w1|] eqn:Hstep; [|discriminate Hrun].
    destruct (step_preferences _ _ _ Hstep)
      as ((Hs1 & Hs2) & (Hl1 & Hl2) & (Hx1 & Hx2)).
    destruct (IH _ _ Hrun) as ((-> & ->) & (-> & ->) & (-> & ->)).
    rewrite Hs1, Hs2, Hl1, Hl2, Hx1, Hx2.
    destruct e; cbn; auto 10.
Qed.

(** C4: a preference setter calls [setState] with the value and then
    assigns the same value to the field of the preferences store, in this
    order and in the same call, after which both copies hold the value;
    and in every run of the component the store holds, for each field,
    the last value the run set it to (the value read at construction when
    the run sets none), and the state holds the same value as the store. *)
Theorem preferences_written_through cfg prefs log0 evs w :
  run (App_constructor cfg prefs log0) evs = Some w ->
  (forall v value,
     let v' := exec (onScaleSliderChange value) v in
     effects v' = (effects v ++ [EffSetState (UpdGameScale value);
                                 EffPreferenceWrite (WriteGameScale value)])%list
     /\ gameScale (state v') = value
     /\ browsePageGameScale (preferences v') = value)
  /\ (forall v value,
        let v' := exec (onLayoutSelectorChange value) v in
        effects v' = (effects v ++ [EffSetState (UpdGameLayout value);
                                    EffPreferenceWrite (WriteLayout value)])%list
        /\ gameLayout (state v') = value
        /\ browsePageLayout (preferences v') = value)
  /\ (forall v isChecked,
        let v' := exec (onExtremeChange isChecked) v in
        effects v' = (effects v ++ [EffSetState (UpdShowExtreme isChecked);
                                    EffPreferenceWrite (WriteShowExtreme isChecked)])%list
        /\ showExtreme (state v') = isChecked
        /\ browsePageShowExtreme (preferences v') = isChecked)
  /\ browsePageGameScale (preferences w)
     = last_gameScale evs (browsePageGameScale prefs)
  /\ browsePageLayout (preferences w)
     = last_gameLayout evs (browsePageLayout prefs)
  /\ browsePageShowExtreme (preferences w)
     = last_showExtreme evs (browsePageShowExtreme prefs)
  /\ gameScale (state w) = browsePageGameScale (preferences w)
  /\ gameLayout (state w) = browsePageLayout (preferences w)
  /\ showExtreme (state w) = browsePageShowExtreme (preferences w).
Proof.
  intros Hrun.
  destruct (run_preferences _ _ _ Hrun)
    as ((Hs1 & Hs2) & (Hl1 & Hl2) & (Hx1 & Hx2)).
  cbn in Hs1, Hs2, Hl1, Hl2, Hx1, Hx2.
  repeat split; try congruence; cbn; rewrite <- app_assoc; reflexivity.
Qed.

(** C10: the scale setter leaves every key of the state other than
    [gameScale] and every field of the preferences store other than
    [browsePageGameScale] as it was, and likewise the layout setter and
    the setter of the extreme filter for their own key and field; a
    change of the order sets the key [order], leaves the other keys and
    the whole preferences store as they were, and writes no preference. *)
Theorem setters_change_only_their_field v :
  (forall value,
     let v' := exec (onScaleSliderChange value) v in
     state_unchanged_except KeyGameScale (state v) (state v')
     /\ preferences_unchanged_except KeyBrowsePageGameScale
          (preferences v) (preferences v'))
  /\ (forall value,
        let v' := exec (onLayoutSelectorChange value) v in
        state_unchanged_except KeyGameLayout (state v) (state v')
        /\ preferences_unchanged_except KeyBrowsePageLayout
             (preferences v) (preferences v'))
  /\ (forall isChecked,
        let v' := exec (onExtremeChange isChecked) v in
        state_unchanged_except KeyShowExtreme (state v) (state v')
        /\ preferences_unchanged_except KeyBrowsePageShowExtreme
             (preferences v) (preferences v'))
  /\ (forall event,
        let v' := exec (onOrderChange event) v in
        state_unchanged_except KeyOrder (state v) (state v')
        /\ order (state v') = Some event
        /\ preferences v' = preferences v
        /\ effects v' = (effects v ++ [EffSetState (UpdOrder event)])%list
        /\ List.filter is_preference_write (effects v')
           = List.filter is_preference_write (effects v)).
Proof.
  unfold state_unchanged_except, preferences_unchanged_except.
  repeat split; intros; try reflexivity; try congruence.
  cbn. rewrite filter_snoc. cbn. apply app_nil_r.
Qed.

(** ** The log channel *)

Lemma step_log e w w' :
  step e w = Some w' ->
  mainLog w' = last_delivered [e] (mainLog w) (mainLog w)
  /\ (listeners w <> [] -> is_unmount e = false ->
      listeners w' <> []
      /\ logData (state w') = last_delivered [e] (mainLog w) (logData (state w))).
Proof.
  intros Hstep.
  step_cases Hstep; (split; [reflexivity|]); intros Hls Hnu;
    try discriminate Hnu; cbn in Hls |- *;
    try (split; [exact Hls | reflexivity]).
  - split; [|reflexivity]. destruct (listeners w); discriminate.
  - split; [exact Hls|]. destruct (listeners w); [contradiction | reflexivity].
  - split; [exact Hls|]. destruct (listeners w); [contradiction | reflexivity].
Qed.

Lemma last_delivered_cons e evs main shown :
  last_delivered (e :: evs) main shown =
  last_delivered evs (last_delivered [e] main main) (last_delivered [e] main shown).
Proof. destruct e; reflexivity. Qed.

Lemma run_log evs : forall w w',
  run w evs = Some w' ->
  mainLog w' = last_delivered evs (mainLog w) (mainLog w)
  /\ (listeners w <> [] -> existsb is_unmount evs = false ->
      logData (state w') = last_delivered evs (mainLog w) (logData (state w))).
Proof.
  induction evs as [|e evs IH]; intros w w' Hrun; cbn in Hrun.
  - injection Hrun as <-. split; [reflexivity|]. intros _ _. reflexivity.
  - destruct (step e w) as [w1|] eqn:Hstep; [|discriminate Hrun].
    destruct (step_log _ _ _ Hstep) as [Hmain Hshown].
    destruct (IH _ _ Hrun) as [Hmain' Hshown'].
    rewrite !(last_delivered_cons e evs). rewrite <- Hmain. split; [exact Hmain'|].
    intros Hls Hnu. cbn in Hnu. apply orb_false_iff in Hnu as [Hnu1 Hnu2].
    destruct (Hshown Hls Hnu1) as [Hls1 <-]. apply Hshown'; assumption.
Qed.

Lemma last_delivered_push before fullLog main shown :
  last_delivered (before ++ [EvLogPush fullLog]) main shown = fullLog.
Proof.
  revert main shown. induction before as [|e before IH]; intros main shown.
  - reflexivity.
  - destruct e; cbn; apply IH.
Qed.

(** C8: a snapshot delivered to a component that listens becomes the
    displayed log, the text displayed before is dropped, not extended;
    over any events without an unmount, the displayed log is the snapshot
    delivered last, which after a push is the snapshot pushed. *)
Theorem log_snapshot_replaces_displayed_log w evs w' :
  run w evs = Some w' ->
  listeners w <> [] ->
  existsb is_unmount evs = false ->
  logData (state w') = last_delivered evs (mainLog w) (logData (state w))
  /\ (forall before fullLog main shown,
        last_delivered (before ++ [EvLogPush fullLog]) main shown = fullLog)
  /\ (forall fullLog v v',
        step (EvLogPush fullLog) v = Some v' -> listeners v <> [] ->
        logData (state v') = fullLog).
Proof.
  intros Hrun Hls Hnu. destruct (run_log _ _ _ Hrun) as [_ Hshown].
  split; [exact (Hshown Hls Hnu)|]. split; [exact last_delivered_push|].
  intros fullLog v v' Hstep Hv.
  destruct (step_log _ _ _ Hstep) as [_ Hs].
  destruct (Hs Hv eq_refl) as [_ ->]. reflexivity.
Qed.

Ltac count_effects :=
  cbn; repeat rewrite filter_snoc; cbn;
  rewrite ?List.filter_app, ?filter_delivered_effects by reflexivity;
  repeat rewrite length_app; cbn.

Lemma step_subscription e w w' evs :
  step e w = Some w' ->
  subscription_inv evs w ->
  subscription_inv (evs ++ [e]) w'.
Proof.
  intros Hstep Hinv. unfold subscription_inv in *.
  step_cases Hstep; count_effects;
    repeat match goal with
           | Heq : lifecycle w = _ |- _ => rewrite Heq in Hinv
           end;
    destruct (lifecycle w); try discriminate;
    decompose [and] Hinv; clear Hinv;
    repeat match goal with
           | Heq : listeners w = _ |- _ => rewrite Heq in *
           end;
    cbn; repeat split; try reflexivity; try assumption; try lia.
Qed.

Lemma subscription_run cfg prefs log0 evs w :
  run (App_constructor cfg prefs log0) evs = Some w ->
  subscription_inv evs w.
Proof.
  revert w. induction evs as [|e evs IH] using rev_ind; intros w Hrun.
  - injection Hrun as <-. cbn. auto 10.
  - rewrite run_snoc in Hrun.
    destruct (run (App_constructor cfg prefs log0) evs) as [w0|]; [|discriminate].
    exact (step_subscription _ _ _ _ Hrun (IH _ eq_refl)).
Qed.

(** A component that is unmounted and has no listener stays so, and its
    displayed log no longer changes. *)
Lemma step_unmounted e w w' :
  step e w = Some w' ->
  lifecycle w = Unmounted -> listeners w = [] ->
  lifecycle w' = Unmounted /\ listeners w' = []
  /\ logData (state w') = logData (state w).
Proof.
  intros Hstep Hlc Hls.
  step_cases Hstep; try congruence; cbn; rewrite ?Hls; cbn; auto.
Qed.

Lemma run_unmounted evs : forall w w',
  run w evs = Some w' ->
  lifecycle w = Unmounted -> listeners w = [] ->
  logData (state w') = logData (state w).
Proof.
  induction evs as [|e evs IH]; intros w w' Hrun Hlc Hls; cbn in Hrun.
  - injection Hrun as <-. reflexivity.
  - destruct (step e w) as [w1|] eqn:Hstep; [|discriminate Hrun].
    destruct (step_unmounted _ _ _ Hstep Hlc Hls) as (Hlc1 & Hls1 & <-).
    exact (IH _ _ Hrun Hlc1 Hls1).
Qed.

(** C9 (the main process's answer to a replay request is modelled from
    the spec): mounting attaches the listener and requests the replay
    next, with no call in between, and unmounting removes the listener in
    one call; in every run of the component the listener has been removed
    once if the component is unmounted and never otherwise, and from the
    mount on exactly one replay is owed or delivered; a component not yet
    mounted displays no log whatever was pushed, and mounting it and
    answering the replay displays the log the main process holds, after
    which no replay is owed; an unmounted component has no listener and
    no later event changes its displayed log. *)
Theorem log_subscription_follows_lifecycle cfg prefs log0 evs w :
  run (App_constructor cfg prefs log0) evs = Some w ->
  (forall v,
     effects (exec componentDidMount v)
     = (effects v ++ [EffIpcOn onLogDataUpdate_bound; EffResendLogDataUpdate])%list)
  /\ (forall v,
        effects (exec componentWillUnmount v)
        = (effects v ++ [EffIpcRemoveListener onLogDataUpdate_bound])%list)
  /\ length (List.filter is_ipc_removeListener (effects w))
     = match lifecycle w with Unmounted => 1 | _ => 0 end
  /\ length (List.filter is_replay evs) + resendRequests w
     = match lifecycle w with Constructed => 0 | _ => 1 end
  /\ mainLog w = last_delivered evs log0 log0
  /\ (lifecycle w = Constructed ->
      logData (state w) = EmptyString
      /\ exists w1 w2,
           step EvMount w = Some w1
           /\ listeners w1 = [onLogDataUpdate_bound]
           /\ step EvReplay w1 = Some w2
           /\ logData (state w2) = mainLog w
           /\ step EvReplay w2 = None)
  /\ (lifecycle w = Unmounted ->
      listeners w = []
      /\ forall evs' w', run w evs' = Some w' ->
           logData (state w') = logData (state w)).
Proof.
  intros Hrun. pose proof (subscription_run _ _ _ _ _ Hrun) as Hinv.
  unfold subscription_inv in Hinv.
  split; [intros v; cbn; rewrite <- app_assoc; reflexivity|].
  split; [intros v; reflexivity|].
  split; [destruct (lifecycle w); decompose [and] Hinv; assumption|].
  split; [destruct (lifecycle w); decompose [and] Hinv; lia|].
  split; [exact (proj1 (run_log _ _ _ Hrun))|].
  split.
  - intros Hlc. rewrite Hlc in Hinv.
    destruct Hinv as (Hls & Hrr & _ & _ & _ & _ & Hlog).
    split; [exact Hlog|].
    eexists _, _. cbn. rewrite Hlc.
    split; [reflexivity|]. cbn. rewrite Hls, Hrr.
    split; [reflexivity|]. cbn.
    split; [reflexivity|]. cbn. split; reflexivity.
  - intros Hlc. rewrite Hlc in Hinv. destruct Hinv as (Hls & _).
    split; [exact Hls|]. intros evs' w' Hrun'.
    exact (run_unmounted _ _ _ Hrun' Hlc Hls).
Qed.

(** ** Further properties of the component *)

(** *** The platform name of a file name *)

(** X1: the platform name the constructor derives from a file name,
    [platform.split('.')[0]], is the text before the first dot: it has no
    dot, the file name is this name followed by nothing or by a dot and
    more, and deriving the name of a name changes nothing.  A file name
    that starts with a dot, like the empty file name, gives the empty
    platform name. *)
Theorem platform_of_filename_is_text_before_first_dot name :
  has_dot (platform_of_filename name) = false
  /\ (exists rest,
        name = (platform_of_filename name ++ rest)%string
        /\ (rest = EmptyString \/ exists r, rest = String "."%char r))
  /\ platform_of_filename (platform_of_filename name) = platform_of_filename name
  /\ (forall r, platform_of_filename (String "."%char r) = EmptyString)
  /\ platform_of_filename EmptyString = EmptyString.
Proof.
  assert (forall s, has_dot s = false -> platform_of_filename s = s) as Hid.
  { intros s Hs. unfold platform_of_filename, split.
    rewrite (split_go_no_dot _ _ Hs). reflexivity. }
  unfold platform_of_filename at 1 2, split.
  destruct (split_go_head name EmptyString)
    as (p & rest & tail & Hsplit & Hname & Hp & Hrest).
  cbn in Hsplit.
  assert (platform_of_filename name = p) as Hpn
    by (unfold platform_of_filename, split; rewrite Hsplit; reflexivity).
  rewrite Hsplit. split; [exact Hp|]. split; [exists rest; auto|].
  split; [rewrite Hpn; exact (Hid _ Hp)|]. split; reflexivity.
Qed.

(** *** The load chain *)

(** Whether a run has settled the load chain, in terms of the
    settlements of its two stages. *)
Lemma settled_cases cfg prefs log0 evs w :
  run (App_constructor cfg prefs log0) evs = Some w ->
  (existsb settles_load evs = false
   /\ (stage1_of evs = None
       \/ exists fns, stage1_of evs = Some (inr fns) /\ stage2_of evs = None))
  \/ (existsb settles_load evs = true
      /\ ((exists e, stage1_of evs = Some (inl e))
          \/ exists fns r,
               stage1_of evs = Some (inr fns) /\ stage2_of evs = Some r)).
Proof.
  intros Hrun.
  destruct (load_fields _ _ _ _ _ Hrun) as (_ & _ & _ & _ & _ & Hwf).
  unfold stage2_after_stage1 in Hwf.
  destruct (existsb settles_load evs) eqn:Hex.
  - right. split; [reflexivity|].
    apply existsb_exists in Hex as (x & Hin & Hx).
    destruct x as [[e|fns]|r| | | | | | | | | |]; try discriminate Hx.
    + left. exists e. exact (stage1_of_In _ _ _ _ _ _ Hrun Hin).
    + right. rewrite (stage2_of_In _ _ _ _ _ _ Hrun Hin) in *.
      destruct (stage1_of evs) as [[e1|fns]|]; try discriminate Hwf. eauto.
  - left. split; [reflexivity|].
    assert (forall x, In x evs -> settles_load x = false) as Hnone.
    { intros x Hin. destruct (settles_load x) eqn:Hx; [|reflexivity].
      rewrite <- Hex. symmetry. apply existsb_exists. eauto. }
    destruct (stage1_of evs) as [[e1|fns]|] eqn:Hs1.
    + apply stage1_of_Some_In, Hnone in Hs1. discriminate Hs1.
    + right. exists fns. split; [reflexivity|].
      destruct (stage2_of evs) as [r|] eqn:Hs2; [|reflexivity].
      apply stage2_of_Some_In, Hnone in Hs2. discriminate Hs2.
    + left. reflexivity.
Qed.

(** X2: in every run of the component [fetchPlatformFilenames] is called
    once, with the path of the configuration; when stage 1 resolves file
    names, [addPlatforms] is called once with the platform name of each,
    in their order, and [fetchPlatforms] once with the path and the file
    names as they were resolved; before that neither is called. *)
Theorem fetches_follow_the_resolved_filenames cfg prefs log0 evs w :
  run (App_constructor cfg prefs log0) evs = Some w ->
  List.filter is_fetchPlatformFilenames (effects w)
    = [EffFetchPlatformFilenames (config_flashpointPath cfg)]
  /\ (forall platformFilenames,
        In (EvPlatformFilenamesSettled (inr platformFilenames)) evs ->
        List.filter is_addPlatforms (effects w)
          = [EffAddPlatforms (List.map platform_of_filename platformFilenames)]
        /\ List.filter is_fetchPlatforms (effects w)
           = [EffFetchPlatforms (config_flashpointPath cfg) platformFilenames])
  /\ ((forall platformFilenames,
         ~ In (EvPlatformFilenamesSettled (inr platformFilenames)) evs) ->
      List.filter is_addPlatforms (effects w) = []
      /\ List.filter is_fetchPlatforms (effects w) = []).
Proof.
  intros Hrun.
  destruct (load_fields _ _ _ _ _ Hrun) as (_ & _ & _ & _ & He & Hwf).
  rewrite <- (filter_filter_sub is_fetchPlatformFilenames is_load_effect)
    by (intros []; try discriminate; reflexivity).
  rewrite <- (filter_filter_sub is_addPlatforms is_load_effect)
    by (intros []; try discriminate; reflexivity).
  rewrite <- (filter_filter_sub is_fetchPlatforms is_load_effect)
    by (intros []; try discriminate; reflexivity).
  rewrite He. clear He.
  split; [|split].
  - destruct (stage1_of evs) as [[e1|fns]|]; [reflexivity| |reflexivity].
    destruct (stage2_of evs) as [[e2|c]|]; reflexivity.
  - intros fns Hin. rewrite (stage1_of_In _ _ _ _ _ _ Hrun Hin).
    destruct (stage2_of evs) as [[e2|c]|]; split; reflexivity.
  - intros Hnone.
    destruct (stage1_of evs) as [[e1|fns]|] eqn:Hs1; try (split; reflexivity).
    exfalso. apply (Hnone fns), stage1_of_Some_In, Hs1.
Qed.

Lemma rejections_app evs1 evs2 :
  rejections (evs1 ++ evs2) = (rejections evs1 ++ rejections evs2)%list.
Proof.
  induction evs1 as [|e evs1 IH]; [reflexivity|].
  destruct e as [[e|fns]|[e|c]| | | | | | | | | |]; cbn; rewrite IH; reflexivity.
Qed.

Lemma step_console_error e w w' :
  step e w = Some w' ->
  List.filter is_console_error (effects w')
  = (List.filter is_console_error (effects w)
     ++ List.map EffConsoleError (rejections [e]))%list.
Proof.
  intros Hstep.
  step_cases Hstep; cbn; repeat rewrite filter_snoc; cbn;
    rewrite ?List.filter_app, ?filter_delivered_effects by reflexivity;
    repeat rewrite <- app_assoc; cbn; rewrite ?app_nil_r; reflexivity.
Qed.

(** X3: over any events, [console.error] is called once for each
    rejection of a promise, with the reason of that rejection and in the
    order of the rejections, and for nothing else; a run of the component
    holds at most one rejection. *)
Theorem rejections_are_logged_once w evs w' :
  run w evs = Some w' ->
  List.filter is_console_error (effects w')
  = (List.filter is_console_error (effects w)
     ++ List.map EffConsoleError (rejections evs))%list
  /\ (forall cfg prefs log0,
        w = App_constructor cfg prefs log0 -> length (rejections evs) <= 1).
Proof.
  assert (forall v v', run v evs = Some v' ->
            List.filter is_console_error (effects v')
            = (List.filter is_console_error (effects v)
               ++ List.map EffConsoleError (rejections evs))%list) as Hlog.
  { clear w w'. induction evs as [|e evs IH]; intros w w' Hrun; cbn in Hrun.
    - injection Hrun as <-. cbn. rewrite app_nil_r. reflexivity.
    - destruct (step e w) as [w1|] eqn:Hstep; [|discriminate Hrun].
      rewrite (IH _ _ Hrun), (step_console_error _ _ _ Hstep).
      change (e :: evs) with ([e] ++ evs)%list.
      rewrite rejections_app, List.map_app, app_assoc. reflexivity. }
  intros Hrun. split; [exact (Hlog _ _ Hrun)|].
  intros cfg prefs log0 ->.
  pose proof (Hlog _ _ Hrun) as Hl. cbn in Hl.
  destruct (load_fields _ _ _ _ _ Hrun) as (_ & _ & _ & _ & He & _).
  rewrite <- (filter_filter_sub is_console_error is_load_effect) in Hl
    by (intros []; try discriminate; reflexivity).
  rewrite He in Hl. apply (f_equal (@length _)) in Hl.
  rewrite length_map in Hl. rewrite <- Hl.
  destruct (stage1_of evs) as [[e1|fns]|]; cbn; try lia.
  destruct (stage2_of evs) as [[e2|c]|]; cbn; lia.
Qed.

(** X4: in every run in which stage 2 resolves with a collection, the
    central state handed to [setState] holds this very collection (no
    game is dropped, added or moved), the path of the configuration and
    the reference to the image collection the constructor created, and
    [onDataLoaded] was called once, with this collection; where no
    settlement comes after an unmount, the state of the component holds
    this central state. *)
Theorem resolved_collection_is_passed_through cfg prefs log0 evs w collection :
  run (App_constructor cfg prefs log0) evs = Some w ->
  In (EvPlatformsSettled (inr collection)) evs ->
  let joined :=
    {| central_collection := collection;
       central_flashpointPath := config_flashpointPath cfg;
       central_gameImages := 0 |} in
  In (EffSetState (UpdCentral joined)) (effects w)
  /\ (forall c, In (EffSetState (UpdCentral c)) (effects w) -> c = joined)
  /\ List.filter is_onDataLoaded (effects w) = [EffOnDataLoaded (Some collection)]
  /\ (alive_at_settlement evs = true -> central (state w) = Some joined).
Proof.
  intros Hrun Hin joined.
  destruct (load_fields _ _ _ _ _ Hrun) as (_ & Hc & _ & _ & He & Hwf).
  unfold stage2_after_stage1 in Hwf.
  rewrite <- (filter_filter_sub is_onDataLoaded is_load_effect)
    by (intros []; try discriminate; reflexivity).
  rewrite He. rewrite (stage2_of_In _ _ _ _ _ _ Hrun Hin) in *.
  destruct (stage1_of evs) as [[e1|fns]|]; try discriminate Hwf.
  cbn in Hc. fold joined in Hc.
  split; [apply (central_handed_iff _ _ _ _ _ _ Hrun); exact Hc|].
  split; [|split; [reflexivity | intros _; exact Hc]].
  intros c Hhanded.
  apply (central_handed_iff _ _ _ _ _ _ Hrun) in Hhanded. congruence.
Qed.

(** In the state in which every call of [setState] is merged, the
    central state is undefined exactly until the load chain settles. *)
Lemma load_settled_iff cfg prefs log0 evs w :
  run (App_constructor cfg prefs log0) evs = Some w ->
  (central (state w) = None <-> existsb settles_load evs = false)
  /\ (pending w = NoFetch <-> existsb settles_load evs = true).
Proof.
  intros Hrun.
  destruct (load_fields _ _ _ _ _ Hrun) as (Hp & Hc & _).
  destruct (settled_cases _ _ _ _ _ Hrun)
    as [(-> & [Hs1 | (fns & Hs1 & Hs2)])
       | (-> & [(e & Hs1) | (fns & r & Hs1 & Hs2)])];
    rewrite Hs1 in Hp, Hc; try rewrite Hs2 in Hp, Hc;
    try destruct r as [e2|c]; cbn in Hp, Hc; rewrite Hp, Hc;
    split; split; intros; congruence.
Qed.

(** X5: in every run of the component a central state has been handed
    to [setState] exactly when an event has settled the load chain, and a
    fetch is in flight exactly as long as none has; where no settlement
    comes after an unmount, the central state of the component's state is
    undefined exactly as long as no event has settled the load chain. *)
Theorem central_is_set_exactly_when_the_load_settled cfg prefs log0 evs w :
  run (App_constructor cfg prefs log0) evs = Some w ->
  ((exists c, In (EffSetState (UpdCentral c)) (effects w))
   <-> existsb settles_load evs = true)
  /\ (pending w = NoFetch <-> existsb settles_load evs = true)
  /\ (alive_at_settlement evs = true ->
      (central (state w) = None <-> existsb settles_load evs = false)).
Proof.
  intros Hrun. destruct (load_settled_iff _ _ _ _ _ Hrun) as [Hnone Hpending].
  split; [|split; [exact Hpending | intros _; exact Hnone]].
  split.
  - intros (c & Hhanded).
    apply (central_handed_iff _ _ _ _ _ _ Hrun) in Hhanded.
    destruct (existsb settles_load evs); [reflexivity|].
    rewrite (proj2 Hnone eq_refl) in Hhanded. discriminate Hhanded.
  - intros Hex. destruct (central (state w)) as [c|] eqn:Hc.
    + exists c. apply (central_handed_iff _ _ _ _ _ _ Hrun). exact Hc.
    + rewrite (proj1 Hnone eq_refl) in Hex. discriminate Hex.
Qed.

(** Once no fetch is in flight, no event changes the central state or
    the objects it refers to. *)
Lemma step_settled e w w' :
  step e w = Some w' ->
  pending w = NoFetch ->
  pending w' = NoFetch
  /\ central (state w') = central (state w)
  /\ heap w' = heap w.
Proof.
  intros Hstep Hp.
  step_cases Hstep; try congruence; cbn; delivered_cases; auto.
Qed.

Lemma run_settled evs : forall w w',
  run w evs = Some w' ->
  pending w = NoFetch ->
  central (state w') = central (state w)
  /\ heap w' = heap w
  /\ pending w' = NoFetch.
Proof.
  induction evs as [|e evs IH]; intros w w' Hrun Hp; cbn in Hrun.
  - injection Hrun as <-. auto.
  - destruct (step e w) as [w1|] eqn:Hstep; [|discriminate Hrun].
    destruct (step_settled _ _ _ Hstep Hp) as (Hp1 & <- & <-).
    exact (IH _ _ Hrun Hp1).
Qed.

(** X6: once the load chain has settled, the central state is final: no
    later event (a search, a preference, a log message, a render pass,
    an unmount) changes it or the image collection it refers to, and no
    further fetch is started. *)
Theorem central_state_is_final w evs w' :
  run w evs = Some w' ->
  pending w = NoFetch ->
  central (state w') = central (state w)
  /\ heap w' = heap w
  /\ pending w' = NoFetch.
Proof. exact (run_settled evs w w'). Qed.

Lemma step_lifecycle_unmounted e w w' :
  step e w = Some w' -> lifecycle w = Unmounted -> lifecycle w' = Unmounted.
Proof. intros Hstep Hlc. step_cases Hstep; try congruence; exact Hlc. Qed.

Lemma run_lifecycle_unmounted evs : forall w w',
  run w evs = Some w' -> lifecycle w = Unmounted -> lifecycle w' = Unmounted.
Proof.
  induction evs as [|e evs IH]; intros w w' Hrun Hlc; cbn in Hrun.
  - injection Hrun as <-. exact Hlc.
  - destruct (step e w) as [w1|] eqn:Hstep; [|discriminate Hrun].
    exact (IH _ _ Hrun (step_lifecycle_unmounted _ _ _ Hstep Hlc)).
Qed.

(** An event that settles the load chain cannot happen once no fetch is
    in flight. *)
Lemma settle_needs_fetch evs : forall w w',
  run w evs = Some w' ->
  pending w = NoFetch ->
  existsb settles_load evs = false.
Proof.
  induction evs as [|e evs IH]; intros w w' Hrun Hp; cbn in Hrun; [reflexivity|].
  destruct (step e w) as [w1|] eqn:Hstep; [|discriminate Hrun].
  destruct (step_settled _ _ _ Hstep Hp) as (Hp1 & _).
  cbn. rewrite (IH _ _ Hrun Hp1), orb_false_r.
  destruct e as [[e|fns]|r| | | | | | | | | |]; try reflexivity;
    cbn in Hstep; rewrite Hp in Hstep; discriminate Hstep.
Qed.

Lemma step_effects_grow e w w' :
  step e w = Some w' -> exists more, effects w' = (effects w ++ more)%list.
Proof.
  intros Hstep.
  step_cases Hstep; cbn; repeat rewrite <- app_assoc; eexists; reflexivity.
Qed.

Lemma run_effects_grow evs : forall w w',
  run w evs = Some w' -> exists more, effects w' = (effects w ++ more)%list.
Proof.
  induction evs as [|e evs IH]; intros w w' Hrun; cbn in Hrun.
  - injection Hrun as <-. exists []. rewrite app_nil_r. reflexivity.
  - destruct (step e w) as [w1|] eqn:Hstep; [|discriminate Hrun].
    destruct (step_effects_grow _ _ _ Hstep) as (more1 & Hw1).
    destruct (IH _ _ Hrun) as (more & ->). rewrite Hw1, <- app_assoc.
    eexists. reflexivity.
Qed.

(** X7: the load chain is not cancelled by an unmount.  In every run in
    which the component is unmounted and the load chain settles
    afterwards, no central state was handed to [setState] before the
    unmount, and the settlement still calls [setState] with a central
    state, after the call of [removeListener], on a component that is
    unmounted. *)
Theorem settlement_after_unmount_is_still_applied
    cfg prefs log0 evs1 evs2 w :
  run (App_constructor cfg prefs log0) (evs1 ++ EvUnmount :: evs2) = Some w ->
  existsb settles_load evs2 = true ->
  lifecycle w = Unmounted
  /\ exists c before after,
       effects w
       = (before ++ EffIpcRemoveListener onLogDataUpdate_bound :: after)%list
       /\ (forall c', ~ In (EffSetState (UpdCentral c')) before)
       /\ In (EffSetState (UpdCentral c)) after.
Proof.
  intros Hrun Hsettles.
  pose proof Hrun as Hrest. rewrite run_app in Hrest.
  destruct (run (App_constructor cfg prefs log0) evs1) as [w1|] eqn:Hrun1;
    [|discriminate Hrest].
  assert (central (state w1) = None) as Hnone1.
  { apply (proj1 (load_settled_iff _ _ _ _ _ Hrun1)).
    destruct (existsb settles_load evs1) eqn:Hex1; [|reflexivity].
    apply (proj2 (load_settled_iff _ _ _ _ _ Hrun1)) in Hex1.
    pose proof (settle_needs_fetch _ _ _ Hrest Hex1) as Hno.
    cbn in Hno. congruence. }
  assert (exists c, central (state w) = Some c) as (c & Hc).
  { destruct (central (state w)) as [c|] eqn:Hc; [eauto|].
    apply (proj1 (load_settled_iff _ _ _ _ _ Hrun)) in Hc.
    rewrite existsb_app in Hc. cbn in Hc.
    rewrite Hsettles, orb_true_r in Hc. discriminate Hc. }
  cbn in Hrest. destruct (lifecycle w1); try discriminate Hrest.
  split; [exact (run_lifecycle_unmounted _ _ _ Hrest eq_refl)|].
  destruct (run_effects_grow _ _ _ Hrest) as (after & Heff). cbn in Heff.
  rewrite <- app_assoc in Heff. cbn in Heff.
  exists c, (effects w1), after. split; [exact Heff|].
  assert (forall c', ~ In (EffSetState (UpdCentral c')) (effects w1)) as Hbefore.
  { intros c' Hin. apply (central_handed_iff _ _ _ _ _ _ Hrun1) in Hin.
    congruence. }
  split; [exact Hbefore|].
  apply (central_handed_iff _ _ _ _ _ _ Hrun) in Hc.
  rewrite Heff in Hc. apply in_app_or in Hc as [Hc | [Hc | Hc]].
  - contradiction (Hbefore c Hc).
  - discriminate Hc.
  - exact Hc.
Qed.

(** *** What a render pass shows *)

(** X8: the game count a render pass hands to the footer follows the
    load chain: it is undefined in every run that has not settled the
    load and, in a component that is not unmounted, 0 in every run in
    which a stage was rejected and the number of games of the resolved
    collection in every run in which stage 2 resolved. *)
Theorem game_count_follows_the_load cfg prefs log0 evs w :
  run (App_constructor cfg prefs log0) evs = Some w ->
  (existsb settles_load evs = false -> view_gameCount (rendered w) = None)
  /\ ((exists e, In (EvPlatformFilenamesSettled (inl e)) evs
                 \/ In (EvPlatformsSettled (inl e)) evs) ->
      lifecycle w <> Unmounted ->
      view_gameCount (rendered w) = Some 0)
  /\ (forall collection,
        In (EvPlatformsSettled (inr collection)) evs ->
        lifecycle w <> Unmounted ->
        view_gameCount (rendered w) = Some (length (games collection)))
  /\ (forall w', step EvRender w = Some w' ->
        effects w' = (effects w ++ [EffRender (rendered w)])%list).
Proof.
  intros Hrun.
  destruct (load_fields _ _ _ _ _ Hrun) as (_ & Hc & _ & _ & _ & Hwf).
  unfold stage2_after_stage1 in Hwf.
  change (view_gameCount (rendered w))
    with (match central (state w) with
          | Some c => Some (length (games (central_collection c)))
          | None => None
          end).
  split; [|split; [|split]].
  - intros Hex. apply (proj1 (load_settled_iff _ _ _ _ _ Hrun)) in Hex.
    rewrite Hex. reflexivity.
  - intros (e & [Hin | Hin]) _.
    + rewrite (stage1_of_In _ _ _ _ _ _ Hrun Hin) in Hc. rewrite Hc. reflexivity.
    + rewrite (stage2_of_In _ _ _ _ _ _ Hrun Hin) in Hc, Hwf.
      destruct (stage1_of evs) as [[e1|fns]|]; try discriminate Hwf.
      rewrite Hc. reflexivity.
  - intros collection Hin _.
    rewrite (stage2_of_In _ _ _ _ _ _ Hrun Hin) in Hc, Hwf.
    destruct (stage1_of evs) as [[e1|fns]|]; try discriminate Hwf.
    rewrite Hc. reflexivity.
  - intros w' Hstep. cbn in Hstep. rewrite exec_render in Hstep.
    destruct (lifecycle w); try discriminate Hstep; injection Hstep as <-;
      reflexivity.
Qed.

(** X9: a render pass changes nothing of the component but the search
    flag, which it clears, and the log of calls: the state, the
    preferences, the image collection, the listeners and the fetch in
    flight are as before.  The pass that follows shows the same view
    without a redirect element. *)
Theorem render_changes_only_the_search_flag w w1 :
  step EvRender w = Some w1 ->
  state w1 = state w
  /\ preferences w1 = preferences w
  /\ heap w1 = heap w
  /\ listeners w1 = listeners w
  /\ pending w1 = pending w
  /\ lifecycle w1 = lifecycle w
  /\ _onSearch w1 = false
  /\ effects w1 = (effects w ++ [EffRender (rendered w)])%list
  /\ rendered w1 = view_of None (state w)
  /\ (_onSearch w = false -> rendered w1 = rendered w).
Proof.
  intros Hstep. cbn in Hstep. rewrite exec_render in Hstep.
  destruct (lifecycle w) eqn:Hlc; try discriminate Hstep; injection Hstep as <-;
    cbn; repeat (split; [first [reflexivity | exact Hlc]|]);
    intros Hoff; unfold rendered; rewrite Hoff; reflexivity.
Qed.

Lemma step_search_order e w w' :
  step e w = Some w' ->
  search (state w') = last_search [e] (search (state w))
  /\ order (state w') = last_order [e] (order (state w)).
Proof.
  intros Hstep. step_cases Hstep; cbn; delivered_cases; auto.
Qed.

Lemma run_search_order evs : forall w w',
  run w evs = Some w' ->
  search (state w') = last_search evs (search (state w))
  /\ order (state w') = last_order evs (order (state w)).
Proof.
  induction evs as [|e evs IH]; intros w w' Hrun; cbn in Hrun.
  - injection Hrun as <-. auto.
  - destruct (step e w) as [w1|] eqn:Hstep; [|discriminate Hrun].
    destruct (step_search_order _ _ _ Hstep) as [Hs Ho].
    destruct (IH _ _ Hrun) as [-> ->]. rewrite Hs, Ho.
    destruct e; cbn; auto.
Qed.

(** X10: the search and the order in the state are the ones submitted
    last: over any events, each is the payload of the last submission
    among the events and, where there is none, what it was before; they
    are undefined in a run of the component that submits none.  The props
    of the router carry the same values. *)
Theorem search_and_order_are_the_last_submitted w evs w' :
  run w evs = Some w' ->
  search (state w') = last_search evs (search (state w))
  /\ order (state w') = last_order evs (order (state w))
  /\ props_search (view_routerProps (rendered w')) = search (state w')
  /\ props_order (view_routerProps (rendered w')) = order (state w')
  /\ (forall cfg prefs log0,
        w = App_constructor cfg prefs log0 ->
        search (state w') = last_search evs None
        /\ order (state w') = last_order evs None).
Proof.
  intros Hrun. destruct (run_search_order _ _ _ Hrun) as [Hs Ho].
  split; [exact Hs|]. split; [exact Ho|]. split; [reflexivity|].
  split; [reflexivity|]. intros cfg prefs log0 ->. auto.
Qed.

Lemma step_config e w w' :
  step e w = Some w' ->
  config (state w') = config (state w)
  /\ useCustomTitlebar (state w') = useCustomTitlebar (state w).
Proof.
  intros Hstep. step_cases Hstep; cbn; delivered_cases; auto.
Qed.

Lemma run_config evs : forall w w',
  run w evs = Some w' ->
  config (state w') = config (state w)
  /\ useCustomTitlebar (state w') = useCustomTitlebar (state w).
Proof.
  induction evs as [|e evs IH]; intros w w' Hrun; cbn in Hrun.
  - injection Hrun as <-. auto.
  - destruct (step e w) as [w1|] eqn:Hstep; [|discriminate Hrun].
    destruct (step_config _ _ _ Hstep) as [<- <-]. exact (IH _ _ Hrun).
Qed.

(** X11: the configuration read at construction is never changed.  In
    every run of the component the state holds the configuration the
    constructor was given, the title bar is rendered exactly when the
    configuration asks for the custom title bar, with the title and the
    version in parentheses, and the central state, once set, carries the
    path of the configuration. *)
Theorem configuration_is_never_changed cfg prefs log0 evs w :
  run (App_constructor cfg prefs log0) evs = Some w ->
  config (state w) = cfg
  /\ useCustomTitlebar (state w) = config_useCustomTitlebar cfg
  /\ view_titleBar (rendered w)
     = (if config_useCustomTitlebar cfg
        then Some (appTitle ++ " (" ++ appVersionString ++ ")")%string
        else None)
  /\ props_config (view_routerProps (rendered w)) = cfg
  /\ (forall c, central (state w) = Some c ->
        central_flashpointPath c = config_flashpointPath cfg).
Proof.
  intros Hrun. destruct (run_config _ _ _ Hrun) as [Hcfg Htb]. cbn in Hcfg, Htb.
  split; [exact Hcfg|]. split; [exact Htb|].
  split; [cbn; rewrite Htb; reflexivity|].
  split; [exact Hcfg|].
  intros c Hcentral.
  destruct (load_fields _ _ _ _ _ Hrun) as (_ & Hc & _).
  rewrite Hcentral in Hc.
  destruct (stage1_of evs) as [[e1|fns]|]; cbn in Hc; try discriminate Hc.
  - injection Hc as ->. reflexivity.
  - destruct (stage2_of evs) as [[e2|col]|]; cbn in Hc; try discriminate Hc;
      injection Hc as ->; reflexivity.
Qed.

(** X12: what a render pass shows of the preferences is what the store
    holds.  In every run of the component the scale of the footer's
    slider, the layout of its selector, the toggle of the header and the
    props of the router equal the fields of the preferences store. *)
Theorem view_shows_the_stored_preferences cfg prefs log0 evs w :
  run (App_constructor cfg prefs log0) evs = Some w ->
  view_scaleSliderValue (rendered w) = browsePageGameScale (preferences w)
  /\ view_layout (rendered w) = browsePageLayout (preferences w)
  /\ view_extremeToggle (rendered w) = browsePageShowExtreme (preferences w)
  /\ props_gameScale (view_routerProps (rendered w))
     = browsePageGameScale (preferences w)
  /\ props_gameLayout (view_routerProps (rendered w))
     = browsePageLayout (preferences w)
  /\ props_showExtreme (view_routerProps (rendered w))
     = browsePageShowExtreme (preferences w).
Proof.
  intros Hrun.
  destruct (run_preferences _ _ _ Hrun)
    as ((Hs1 & Hs2) & (Hl1 & Hl2) & (Hx1 & Hx2)).
  cbn in Hs1, Hs2, Hl1, Hl2, Hx1, Hx2. cbn.
  repeat split; congruence.
Qed.

(** *** The search flag, for every interleaving *)

Lemma run_redirects evs : forall w w',
  run w evs = Some w' ->
  forall p,
    (p = is_redirect \/ p = is_navigation_to_browse) ->
    length (List.filter p (effects w'))
    = length (List.filter p (effects w)) + redirects_of (_onSearch w) evs.
Proof.
  induction evs as [|e evs IH]; intros w w' Hrun p Hp; cbn in Hrun.
  - injection Hrun as <-. cbn. lia.
  - destruct (step e w) as [w1|] eqn:Hstep; [|discriminate Hrun].
    destruct (step_search_flag _ _ _ Hstep) as [Hflag Hcount].
    rewrite (IH _ _ Hrun p Hp), (Hcount p Hp), Hflag.
    destruct e; cbn; lia.
Qed.

Lemma redirects_of_bounds evs : forall armed,
  redirects_of armed evs
    <= length (List.filter is_search evs) + (if armed then 1 else 0)
  /\ redirects_of armed evs <= length (List.filter is_render evs).
Proof.
  induction evs as [|e evs IH]; intros armed; cbn; [lia|].
  destruct e; cbn;
    try (destruct (IH armed) as [H1 H2]; lia).
  - destruct (IH false) as [H1 H2]. destruct armed; cbn in *; lia.
  - destruct (IH true) as [H1 H2]. destruct armed; cbn in *; lia.
Qed.

(** X13: over any events, whatever their order, the number of redirect
    elements handed to the framework is the number of render passes that
    find the flag armed; it never exceeds the number of search
    submissions (plus one if the flag was armed before) nor the number of
    render passes, so submissions that overlap before a render pass share
    one redirect. *)
Theorem redirects_never_exceed_searches w evs w' :
  run w evs = Some w' ->
  length (List.filter is_redirect (effects w'))
  = length (List.filter is_redirect (effects w)) + redirects_of (_onSearch w) evs
  /\ redirects_of (_onSearch w) evs
     <= length (List.filter is_search evs) + (if _onSearch w then 1 else 0)
  /\ redirects_of (_onSearch w) evs <= length (List.filter is_render evs)
  /\ (forall first second rest armed,
        redirects_of armed (EvSearch first :: EvSearch second :: EvRender :: rest)
        = 1 + redirects_of false rest).
Proof.
  intros Hrun.
  split; [exact (run_redirects _ _ _ Hrun _ (or_introl eq_refl))|].
  destruct (redirects_of_bounds evs (_onSearch w)) as [H1 H2].
  split; [exact H1|]. split; [exact H2|]. reflexivity.
Qed.

(** *** The preference setters *)

(** X14: setters of different preferences commute, and a setter called
    twice leaves what the second call sets: the state and the store after
    two calls do not depend on the order of calls for different fields,
    and for one field they are those of the later call alone. *)
Theorem setters_commute_and_overwrite w :
  (forall scale layout,
     let a := exec (onScaleSliderChange scale) (exec (onLayoutSelectorChange layout) w) in
     let b := exec (onLayoutSelectorChange layout) (exec (onScaleSliderChange scale) w) in
     state a = state b /\ preferences a = preferences b)
  /\ (forall scale extreme,
        let a := exec (onScaleSliderChange scale) (exec (onExtremeChange extreme) w) in
        let b := exec (onExtremeChange extreme) (exec (onScaleSliderChange scale) w) in
        state a = state b /\ preferences a = preferences b)
  /\ (forall layout extreme,
        let a := exec (onLayoutSelectorChange layout) (exec (onExtremeChange extreme) w) in
        let b := exec (onExtremeChange extreme) (exec (onLayoutSelectorChange layout) w) in
        state a = state b /\ preferences a = preferences b)
  /\ (forall first second,
        let a := exec (onScaleSliderChange second) (exec (onScaleSliderChange first) w) in
        let b := exec (onScaleSliderChange second) w in
        state a = state b /\ preferences a = preferences b)
  /\ (forall first second,
        let a := exec (onLayoutSelectorChange second) (exec (onLayoutSelectorChange first) w) in
        let b := exec (onLayoutSelectorChange second) w in
        state a = state b /\ preferences a = preferences b)
  /\ (forall first second,
        let a := exec (onExtremeChange second) (exec (onExtremeChange first) w) in
        let b := exec (onExtremeChange second) w in
        state a = state b /\ preferences a = preferences b).
Proof. repeat split; reflexivity. Qed.

Lemma step_preference_writes e w w' :
  step e w = Some w' ->
  length (List.filter is_preference_write (effects w'))
  = length (List.filter is_preference_write (effects w))
    + (if is_preference_setter e then 1 else 0)
  /\ (is_preference_setter e = false -> preferences w' = preferences w).
Proof.
  intros Hstep.
  step_cases Hstep; (split; [|try discriminate; reflexivity]); cbn;
    repeat rewrite filter_snoc; cbn;
    rewrite ?List.filter_app, ?filter_delivered_effects by reflexivity;
    repeat rewrite length_app; cbn; lia.
Qed.

(** X15: the preferences store is written by the three setters and by
    nothing else: over any events, the number of writes to the store is
    the number of setter calls among the events, and events without a
    setter call (the load chain, the searches, the order, the log, the
    render passes, mounting and unmounting) leave the store as it was. *)
Theorem preferences_are_written_only_by_setters evs : forall w w',
  run w evs = Some w' ->
  length (List.filter is_preference_write (effects w'))
  = length (List.filter is_preference_write (effects w))
    + length (List.filter is_preference_setter evs)
  /\ (existsb is_preference_setter evs = false -> preferences w' = preferences w).
Proof.
  induction evs as [|e evs IH]; intros w w' Hrun; cbn in Hrun.
  - injection Hrun as <-. cbn. split; [lia | reflexivity].
  - destruct (step e w) as [w1|] eqn:Hstep; [|discriminate Hrun].
    destruct (step_preference_writes _ _ _ Hstep) as [Hn Hsame].
    destruct (IH _ _ Hrun) as [Hn' Hsame']. split.
    + rewrite Hn', Hn. cbn [List.filter].
      destruct (is_preference_setter e); cbn [length]; lia.
    + cbn [existsb]. intros Hno. apply orb_false_iff in Hno as [He Hrest].
      rewrite (Hsame' Hrest). exact (Hsame He).
Qed.

(** *** The listeners and the frames of the other handlers *)

Lemma remove_first_head l ls : remove_first l (l :: ls) = ls.
Proof. destruct l. reflexivity. Qed.

Lemma remove_last_added ls l :
  rev (remove_first l (rev (ls ++ [l]))) = ls.
Proof.
  rewrite rev_app_distr. cbn [rev app].
  rewrite remove_first_head. apply rev_involutive.
Qed.

(** X16: unmounting undoes what mounting did to the listeners of the
    channel: whatever listeners were registered before, after
    [componentDidMount] and [componentWillUnmount] the listeners are the
    same, in the same order; the state, the preferences and the search
    flag are untouched by both, and one more replay has been requested.
    No event other than a mount and an unmount changes the listeners. *)
Theorem unmount_undoes_the_subscription w :
  let w1 := exec componentDidMount w in
  let w2 := exec componentWillUnmount w1 in
  listeners w1 = (listeners w ++ [onLogDataUpdate_bound])%list
  /\ listeners w2 = listeners w
  /\ state w2 = state w
  /\ preferences w2 = preferences w
  /\ _onSearch w2 = _onSearch w
  /\ resendRequests w2 = S (resendRequests w)
  /\ (forall e v v', step e v = Some v' ->
        e <> EvMount -> e <> EvUnmount -> listeners v' = listeners v).
Proof.
  cbv zeta. split; [reflexivity|].
  split; [exact (remove_last_added (listeners w) onLogDataUpdate_bound)|].
  repeat (split; [reflexivity|]).
  intros e v v' Hstep Hm Hu.
  step_cases Hstep; try congruence; reflexivity.
Qed.

(** X17: the other handlers keep to their own key as well.  A search
    changes the key [search] and arms the flag, a log message changes the
    key [logData], the assembly of the central state changes the key
    [central]; each leaves the other keys of the state, the preferences
    store, the image collection and the listeners as they were, and only
    the search touches the flag. *)
Theorem handlers_change_only_their_key w :
  (forall event,
     let w' := exec (onSearch event) w in
     state_unchanged_except KeySearch (state w) (state w')
     /\ preferences w' = preferences w /\ heap w' = heap w
     /\ listeners w' = listeners w /\ _onSearch w' = true)
  /\ (forall fullLog,
        let w' := exec (onLogDataUpdate fullLog) w in
        state_unchanged_except KeyLogData (state w) (state w')
        /\ preferences w' = preferences w /\ heap w' = heap w
        /\ listeners w' = listeners w /\ _onSearch w' = _onSearch w)
  /\ (forall gameImages collection,
        let w' := exec (onDataLoaded gameImages collection) w in
        state_unchanged_except KeyCentral (state w) (state w')
        /\ preferences w' = preferences w /\ heap w' = heap w
        /\ listeners w' = listeners w /\ _onSearch w' = _onSearch w).
Proof.
  unfold state_unchanged_except.
  repeat split; intros; try reflexivity; congruence.
Qed.

(** *** The search behind a redirect *)

Lemma step_armed_has_search e w w' :
  step e w = Some w' ->
  (_onSearch w = true -> search (state w) <> None) ->
  _onSearch w' = true -> search (state w') <> None.
Proof.
  intros Hstep Hinv.
  step_cases Hstep; cbn; delivered_cases; cbn;
    first [exact Hinv | discriminate].
Qed.

Lemma run_armed_has_search evs : forall w w',
  run w evs = Some w' ->
  (_onSearch w = true -> search (state w) <> None) ->
  _onSearch w' = true -> search (state w') <> None.
Proof.
  induction evs as [|e evs IH]; intros w w' Hrun Hinv; cbn in Hrun.
  - injection Hrun as <-. exact Hinv.
  - destruct (step e w) as [w1|] eqn:Hstep; [|discriminate Hrun].
    exact (IH _ _ Hrun (step_armed_has_search _ _ _ Hstep Hinv)).
Qed.

(** X18: a redirect is never rendered without the search that caused
    it.  In every run of the component that ends with the flag armed, the
    next render pass hands the framework the redirect to [Paths.browse]
    together with router props whose search is defined and is the search
    submitted last. *)
Theorem redirect_comes_with_its_search cfg prefs log0 evs w :
  run (App_constructor cfg prefs log0) evs = Some w ->
  _onSearch w = true ->
  view_redirect (rendered w)
  = Some {| redirect_to := Paths_browse; redirect_push := true |}
  /\ exists event,
       props_search (view_routerProps (rendered w)) = Some event
       /\ last_search evs None = Some event.
Proof.
  intros Hrun Harmed.
  split; [unfold rendered; rewrite Harmed; reflexivity|].
  destruct (run_search_order _ _ _ Hrun) as [Hs _]. cbn in Hs.
  assert (search (state w) <> None) as Hsome.
  { apply (run_armed_has_search _ _ _ Hrun); [discriminate | exact Harmed]. }
  change (props_search (view_routerProps (rendered w))) with (search (state w)).
  destruct (search (state w)) as [event|]; [|contradiction].
  exists event. split; [reflexivity | congruence].
Qed.

End Properties.

(** ** The statements on the concrete launcher *)

Ltac in_list := cbv [In]; repeat (first [left; reflexivity | right]).

Ltac in_computed_list :=
  vm_compute; repeat (first [left; reflexivity | right]).

Lemma failed_load_witness :
  exists c,
    In (EffSetState (UpdCentral c))
       (effects (Demo.after Demo.start Demo.stage2_fails))
    /\ central_collection c = {| games := [] |}
    /\ (alive_at_settlement Demo.stage2_fails = true ->
        central (state (Demo.after Demo.start Demo.stage2_fails)) = Some c).
Proof.
  apply (failed_load_yields_empty_collection
           Demo.config Demo.prefs "boot" Demo.stage2_fails).
  - vm_compute; reflexivity.
  - right. exists "malformed xml". in_list.
Defined.

(** The concrete run settles stage 2 with what [fetchPlatforms] makes of
    the file names it was called with. *)
Lemma demo_stage2_answers_the_call :
  stage2_answers_the_call Demo.parse Demo.load_succeeds
    (Demo.after Demo.start Demo.load_succeeds).
Proof.
  assert (List.filter is_fetchPlatforms
            (effects (Demo.after Demo.start Demo.load_succeeds))
          = [EffFetchPlatforms "/flashpoint" Demo.filenames]) as Hcalls
    by (vm_compute; reflexivity).
  intros path names r Hcall Hev.
  assert (In (EffFetchPlatforms path names)
             (List.filter is_fetchPlatforms
                (effects (Demo.after Demo.start Demo.load_succeeds)))) as Hin
    by (apply List.filter_In; split; [exact Hcall | reflexivity]).
  rewrite Hcalls in Hin. destruct Hin as [Hin | []].
  injection Hin as <- <-.
  unfold Demo.load_succeeds in Hev. cbn [In] in Hev.
  repeat (destruct Hev as [Hev | Hev]; [try discriminate Hev|]);
    [|contradiction].
  injection Hev as <-. reflexivity.
Qed.

Lemma images_registered_witness :
  exists g before after,
    heap (Demo.after Demo.start Demo.load_succeeds)
      !! central_gameImages Demo.joined = Some g
    /\ effects (Demo.after Demo.start Demo.load_succeeds)
       = (before ++ EffSetState (UpdCentral Demo.joined) :: after)%list
    /\ (forall platformFilenames,
          In (EvPlatformFilenamesSettled (inr platformFilenames))
             Demo.load_succeeds ->
          In (EffAddPlatforms (List.map platform_of_filename platformFilenames))
             before
          /\ forall name, In name platformFilenames ->
               exists platform,
                 platform_named_by name platform
                 /\ platform ∈ images_platforms g)
    /\ (forall game, In game (games (central_collection Demo.joined)) ->
          exists name platform,
            parsed_from Demo.parse name game
            /\ platform_named_by name platform
            /\ platform ∈ images_platforms g)
    /\ (alive_at_settlement Demo.load_succeeds = true ->
        central (state (Demo.after Demo.start Demo.load_succeeds))
        = Some Demo.joined).
Proof.
  apply (central_state_has_images_registered Demo.config Demo.prefs "boot").
  - vm_compute; reflexivity.
  - exact demo_stage2_answers_the_call.
  - in_computed_list.
Defined.

Lemma successful_load_witness :
  exists c,
    In (EffSetState (UpdCentral c))
       (effects (Demo.after Demo.start Demo.load_succeeds))
    /\ games (central_collection c)
       = concat [Demo.flash_games; Demo.shockwave_games]
    /\ length (games (central_collection c))
       = list_sum (List.map length [Demo.flash_games; Demo.shockwave_games])
    /\ (alive_at_settlement Demo.load_succeeds = true ->
        central (state (Demo.after Demo.start Demo.load_succeeds)) = Some c).
Proof.
  apply (successful_load_collects_all_games
           Demo.config Demo.prefs "boot" Demo.parse Demo.filenames
           [Demo.flash_games; Demo.shockwave_games] Demo.load_succeeds).
  - vm_compute; reflexivity.
  - vm_compute; reflexivity.
  - in_list.
  - eexists. in_list.
  - exact demo_stage2_answers_the_call.
Defined.

Lemma onDataLoaded_once_witness :
  length (List.filter is_onDataLoaded
            (effects (Demo.after Demo.start Demo.stage2_fails)))
  = if existsb settles_load Demo.stage2_fails then 1 else 0.
Proof.
  apply (onDataLoaded_once_per_settlement Demo.config Demo.prefs "boot").
  vm_compute; reflexivity.
Defined.

Lemma stage1_failure_witness :
  (exists c g,
     In (EffSetState (UpdCentral c))
        (effects (Demo.after Demo.start Demo.stage1_fails))
     /\ length (games (central_collection c)) = 0
     /\ heap (Demo.after Demo.start Demo.stage1_fails) !! central_gameImages c
        = Some g
     /\ size (images_platforms g) = 0
     /\ (alive_at_settlement Demo.stage1_fails = true ->
         central (state (Demo.after Demo.start Demo.stage1_fails)) = Some c))
  /\ List.filter is_addPlatforms
       (effects (Demo.after Demo.start Demo.stage1_fails)) = []
  /\ List.filter is_fetchPlatforms
       (effects (Demo.after Demo.start Demo.stage1_fails)) = []
  /\ (forall r, ~ In (EvPlatformsSettled r) Demo.stage1_fails).
Proof.
  apply (stage1_failure_skips_stage2
           Demo.config Demo.prefs "boot" Demo.stage1_fails _ "EACCES").
  - vm_compute; reflexivity.
  - in_list.
Defined.

Lemma one_navigation_witness :
  length (List.filter is_navigation_to_browse
            (effects (Demo.after Demo.start Demo.searches)))
  = length (List.filter is_navigation_to_browse (effects Demo.start))
    + length (List.filter is_search Demo.searches)
  /\ _onSearch (Demo.after Demo.start Demo.searches) = false.
Proof.
  destruct (one_navigation_per_search Demo.start Demo.searches
              (Demo.after Demo.start Demo.searches))
    as (Hnav & _ & Hoff & _).
  - vm_compute; reflexivity.
  - vm_compute; reflexivity.
  - vm_compute; reflexivity.
  - split; [exact Hnav | exact Hoff].
Defined.

Lemma preferences_witness :
  browsePageGameScale
    (preferences (Demo.after Demo.start Demo.preference_changes))
  = last_gameScale Demo.preference_changes (browsePageGameScale Demo.prefs)
  /\ gameScale (state (Demo.after Demo.start Demo.preference_changes))
     = browsePageGameScale
         (preferences (Demo.after Demo.start Demo.preference_changes)).
Proof.
  destruct (preferences_written_through Demo.config Demo.prefs "boot"
              Demo.preference_changes
              (Demo.after Demo.start Demo.preference_changes))
    as (_ & _ & _ & Hlast & _ & _ & Hsync & _).
  - vm_compute; reflexivity.
  - split; [exact Hlast | exact Hsync].
Defined.

Lemma log_snapshot_witness :
  logData (state (Demo.after (Demo.after Demo.start [EvMount]) Demo.log_pushes))
  = last_delivered Demo.log_pushes
      (mainLog (Demo.after Demo.start [EvMount]))
      (logData (state (Demo.after Demo.start [EvMount]))).
Proof.
  destruct (log_snapshot_replaces_displayed_log
              (Demo.after Demo.start [EvMount]) Demo.log_pushes
              (Demo.after (Demo.after Demo.start [EvMount]) Demo.log_pushes))
    as (Hshown & _).
  - vm_compute; reflexivity.
  - discriminate.
  - vm_compute; reflexivity.
  - exact Hshown.
Defined.

Lemma log_subscription_witness :
  logData (state (Demo.after Demo.start Demo.early_pushes)) = EmptyString
  /\ exists w1 w2,
       step EvMount (Demo.after Demo.start Demo.early_pushes) = Some w1
       /\ listeners w1 = [onLogDataUpdate_bound]
       /\ step EvReplay w1 = Some w2
       /\ logData (state w2) = mainLog (Demo.after Demo.start Demo.early_pushes)
       /\ step EvReplay w2 = None.
Proof.
  destruct (log_subscription_follows_lifecycle Demo.config Demo.prefs "boot"
              Demo.early_pushes (Demo.after Demo.start Demo.early_pushes))
    as (_ & _ & _ & _ & _ & Hmount & _).
  - vm_compute; reflexivity.
  - apply Hmount. vm_compute; reflexivity.
Defined.

(** *** The scenarios of the specification *)

(** Two platform sources with 3 and 5 games: the collection has 8. *)
Example scenario_two_platforms :
  option_map (fun c => length (games (central_collection c)))
    (central (state (Demo.after Demo.start Demo.load_succeeds)))
  = Some 8.
Proof. vm_compute. reflexivity. Qed.

(** The names registered for them are the heads of the file names. *)
Example scenario_registered_names :
  option_map (fun g => elements (images_platforms g))
    (heap (Demo.after Demo.start Demo.load_succeeds) !! 0)
  = Some (elements ({[ "Flash"; "Shockwave" ]} : gset string)).
Proof. vm_compute. reflexivity. Qed.

(** Stage 1 is rejected: no game and no registered platform. *)
Example scenario_stage1_rejected :
  option_map (fun c => length (games (central_collection c)))
    (central (state (Demo.after Demo.start Demo.stage1_fails)))
  = Some 0
  /\ option_map (fun g => size (images_platforms g))
       (heap (Demo.after Demo.start Demo.stage1_fails) !! 0)
     = Some 0.
Proof. split; vm_compute; reflexivity. Qed.

(** Setting the game scale to 1.5: the live value and the store hold
    1.5. *)
Example scenario_gameScale :
  gameScale (state (Demo.after Demo.start [EvScaleSliderChange 1.5%float]))
  = 1.5%float
  /\ browsePageGameScale
       (preferences (Demo.after Demo.start [EvScaleSliderChange 1.5%float]))
     = 1.5%float.
Proof. split; vm_compute; reflexivity. Qed.

(** The channel pushes "line1" and then "line2": the displayed log is
    "line2". *)
Example scenario_log_replaced :
  logData (state (Demo.after Demo.start
                    [EvMount; EvLogPush "line1"; EvLogPush "line2"]))
  = "line2".
Proof. vm_compute. reflexivity. Qed.

(** A search is consumed by the first render pass after it. *)
Example scenario_search_redirects_once :
  List.map is_redirect
    (List.filter (fun e => match e with EffRender _ => true | _ => false end)
       (effects (Demo.after Demo.start Demo.searches)))
  = [true; false; true].
Proof. vm_compute. reflexivity. Qed.

(** *** The further properties on the concrete launcher *)

Ltac by_computation := vm_compute; reflexivity.

Lemma fetches_witness :
  List.filter is_fetchPlatformFilenames
    (effects (Demo.after Demo.start Demo.load_succeeds))
  = [EffFetchPlatformFilenames (config_flashpointPath Demo.config)].
Proof.
  destruct (fetches_follow_the_resolved_filenames Demo.config Demo.prefs "boot"
              Demo.load_succeeds (Demo.after Demo.start Demo.load_succeeds))
    as (Hfirst & _).
  - by_computation.
  - exact Hfirst.
Defined.

Lemma rejections_witness :
  List.filter is_console_error
    (effects (Demo.after Demo.start Demo.stage2_fails))
  = (List.filter is_console_error (effects Demo.start)
     ++ List.map EffConsoleError (rejections Demo.stage2_fails))%list.
Proof.
  destruct (rejections_are_logged_once Demo.start Demo.stage2_fails
              (Demo.after Demo.start Demo.stage2_fails)) as (Hlog & _).
  - by_computation.
  - exact Hlog.
Defined.

Lemma passed_through_witness :
  In (EffSetState (UpdCentral
        {| central_collection := central_collection Demo.joined;
           central_flashpointPath := config_flashpointPath Demo.config;
           central_gameImages := 0 |}))
     (effects (Demo.after Demo.start Demo.load_succeeds)).
Proof.
  destruct (resolved_collection_is_passed_through Demo.config Demo.prefs "boot"
              Demo.load_succeeds (Demo.after Demo.start Demo.load_succeeds)
              (central_collection Demo.joined))
    as (Hhanded & _).
  - by_computation.
  - in_list.
  - exact Hhanded.
Defined.

Lemma central_set_witness :
  pending (Demo.after Demo.start Demo.stage1_fails) = NoFetch
  <-> existsb settles_load Demo.stage1_fails = true.
Proof.
  destruct (central_is_set_exactly_when_the_load_settled
              Demo.config Demo.prefs "boot" Demo.stage1_fails
              (Demo.after Demo.start Demo.stage1_fails)) as (_ & Hiff & _).
  - by_computation.
  - exact Hiff.
Defined.

Lemma central_final_witness :
  central (state (Demo.after (Demo.after Demo.start Demo.stage1_fails)
                    Demo.preference_changes))
  = central (state (Demo.after Demo.start Demo.stage1_fails)).
Proof.
  destruct (central_state_is_final
              (Demo.after Demo.start Demo.stage1_fails) Demo.preference_changes
              (Demo.after (Demo.after Demo.start Demo.stage1_fails)
                 Demo.preference_changes)) as (Hc & _).
  - by_computation.
  - by_computation.
  - exact Hc.
Defined.

Lemma settlement_after_unmount_witness :
  lifecycle (Demo.after Demo.start
               (Demo.before_unmount ++ EvUnmount :: Demo.after_unmount))
  = Unmounted
  /\ exists c before after,
       effects (Demo.after Demo.start
                  (Demo.before_unmount ++ EvUnmount :: Demo.after_unmount))
       = (before ++ EffIpcRemoveListener onLogDataUpdate_bound :: after)%list
       /\ (forall c', ~ In (EffSetState (UpdCentral c')) before)
       /\ In (EffSetState (UpdCentral c)) after.
Proof.
  apply (settlement_after_unmount_is_still_applied
           Demo.config Demo.prefs "boot"
           Demo.before_unmount Demo.after_unmount);
    by_computation.
Defined.

Lemma game_count_witness :
  view_gameCount (rendered (Demo.after Demo.start Demo.load_succeeds))
  = Some (length (games (central_collection Demo.joined))).
Proof.
  destruct (game_count_follows_the_load Demo.config Demo.prefs "boot"
              Demo.load_succeeds (Demo.after Demo.start Demo.load_succeeds))
    as (_ & _ & Hcount & _).
  - by_computation.
  - apply (Hcount (central_collection Demo.joined)).
    + in_list.
    + vm_compute. discriminate.
Defined.

Lemma render_frame_witness :
  state (Demo.after Demo.start Demo.one_search_rendered)
  = state (Demo.after Demo.start Demo.one_search)
  /\ _onSearch (Demo.after Demo.start Demo.one_search_rendered) = false.
Proof.
  destruct (render_changes_only_the_search_flag
              (Demo.after Demo.start Demo.one_search)
              (Demo.after Demo.start Demo.one_search_rendered))
    as (Hs & _ & _ & _ & _ & _ & Hoff & _).
  - by_computation.
  - split; [exact Hs | exact Hoff].
Defined.

Lemma last_search_witness :
  search (state (Demo.after Demo.start Demo.armed))
  = last_search Demo.armed (search (state Demo.start))
  /\ order (state (Demo.after Demo.start Demo.armed))
     = last_order Demo.armed (order (state Demo.start)).
Proof.
  destruct (search_and_order_are_the_last_submitted
              Demo.start Demo.armed (Demo.after Demo.start Demo.armed))
    as (Hs & Ho & _).
  - by_computation.
  - split; [exact Hs | exact Ho].
Defined.

Lemma configuration_witness :
  config (state (Demo.after Demo.start Demo.preference_changes)) = Demo.config
  /\ useCustomTitlebar (state (Demo.after Demo.start Demo.preference_changes))
     = config_useCustomTitlebar Demo.config.
Proof.
  destruct (configuration_is_never_changed Demo.config Demo.prefs "boot"
              Demo.preference_changes
              (Demo.after Demo.start Demo.preference_changes))
    as (Hcfg & Htb & _).
  - by_computation.
  - split; [exact Hcfg | exact Htb].
Defined.

Lemma view_preferences_witness :
  view_scaleSliderValue (rendered (Demo.after Demo.start Demo.preference_changes))
  = browsePageGameScale
      (preferences (Demo.after Demo.start Demo.preference_changes)).
Proof.
  destruct (view_shows_the_stored_preferences Demo.config Demo.prefs "boot"
              Demo.preference_changes
              (Demo.after Demo.start Demo.preference_changes))
    as (Hscale & _).
  - by_computation.
  - exact Hscale.
Defined.

Lemma overlapping_searches_witness :
  length (List.filter is_redirect
            (effects (Demo.after Demo.start Demo.overlapping)))
  = length (List.filter is_redirect (effects Demo.start))
    + redirects_of (_onSearch Demo.start) Demo.overlapping.
Proof.
  destruct (redirects_never_exceed_searches
              Demo.start Demo.overlapping
              (Demo.after Demo.start Demo.overlapping)) as (Hn & _).
  - by_computation.
  - exact Hn.
Defined.

Lemma preference_writes_witness :
  length (List.filter is_preference_write
            (effects (Demo.after Demo.start Demo.preference_changes)))
  = length (List.filter is_preference_write (effects Demo.start))
    + length (List.filter is_preference_setter Demo.preference_changes).
Proof.
  destruct (preferences_are_written_only_by_setters
              Demo.preference_changes Demo.start
              (Demo.after Demo.start Demo.preference_changes)) as (Hn & _).
  - by_computation.
  - exact Hn.
Defined.

Lemma redirect_search_witness :
  view_redirect (rendered (Demo.after Demo.start Demo.armed))
  = Some {| redirect_to := @Paths_browse Demo.collaborators;
            redirect_push := true |}
  /\ exists event,
       props_search (view_routerProps (rendered (Demo.after Demo.start Demo.armed)))
       = Some event
       /\ last_search Demo.armed None = Some event.
Proof.
  apply (redirect_comes_with_its_search Demo.config Demo.prefs "boot");
    by_computation.
Defined.

(** Two submissions before a render pass share one redirect; a later
    one gets its own. *)
Example scenario_overlapping_searches :
  redirects_of false Demo.overlapping = 2
  /\ length (List.filter is_search Demo.overlapping) = 3.
Proof. split; reflexivity. Qed.

(** File names with several dots, with none and with a leading dot. *)
Example scenario_platform_names :
  List.map platform_of_filename
    ["Flash.xml"; "Shockwave.v2.xml"; "Unity"; ".hidden"; ""]
  = ["Flash"; "Shockwave"; "Unity"; ""; ""].
Proof. reflexivity. Qed.
